(** * WASM loading adapters: a shallow embedding and its verified contract

    The development follows the two TypeScript sources of the repository:

    - [src/utils/mediapipe-wasm-adapter.ts]: class [MediaPipeWasmAdapter]
      with [createWasmConfig] (module [CreateWasmConfig] below);
    - the second source, holding an earlier [MediaPipeWasmAdapter] with
      [createWasmLoader] (module [CreateWasmLoader]) and the class
      [WasmLoader] (module [WasmLoader]).

    Asynchronous functions are embedded as finite interaction trees
    ([Prog]): a node is a console call, a call into the host (fetch, the
    WebAssembly primitives, the caller's success callback) together with a
    continuation for either way the call can settle, a return or a throw.
    A host is an arbitrary state-passing handler; [run] executes a tree
    against it and yields how the promise settles, the host's final state
    and the chronological list of events.  [Promise.all] is executed by a
    task pool driven by an arbitrary schedule. *)

From Stdlib Require Import String Ascii List NArith Bool Arith Lia DecimalString.
Import ListNotations.
Open Scope string_scope.

(** ** JavaScript string primitives *)

Module JsString.

(** [s.startsWith(searchString)]. *)
Fixpoint startsWith (s searchString : string) {struct searchString} : bool :=
  match searchString, s with
  | EmptyString, _ => true
  | String _ _, EmptyString => false
  | String c searchString', String d s' =>
      Ascii.eqb c d && startsWith s' searchString'
  end.

(** [s.endsWith(searchString)]: compare the last
    [searchString.length] code units, when there are that many. *)
Definition endsWith (s searchString : string) : bool :=
  let len := String.length s in
  let searchLength := String.length searchString in
  if Nat.ltb len searchLength then false
  else String.eqb (substring (len - searchLength) searchLength s) searchString.

(** [s.includes(searchString)]: an occurrence at some index. *)
Fixpoint includes (s searchString : string) : bool :=
  startsWith s searchString ||
  match s with
  | EmptyString => false
  | String _ s' => includes s' searchString
  end.

(** [`${n}`] for a non-negative integer. *)
Definition toString (n : N) : string := NilZero.string_of_uint (N.to_uint n).

(** [`${v}`] for a value of type [string | null]. *)
Definition template (v : option string) : string :=
  match v with
  | Some s => s
  | None => "null"
  end.

(** [!v] for a value of type [string | null]. *)
Definition not (v : option string) : bool :=
  match v with
  | Some s => String.eqb s ""
  | None => true
  end.

End JsString.

(** ** Host objects *)

(** Object identity: instances, modules, import objects and buffers are
    compared by reference. *)
Definition Ref := nat.

Record JsError := mkError { name : string; message : string }.

(** [new Error(msg)]. *)
Definition Error (msg : string) : JsError := mkError "Error" msg.

(** The [RequestInit] the sources pass to [fetch]. *)
Record Request := mkRequest {
  url : string;
  method : string;
  req_headers : list (string * string)
}.

Record Response := mkResponse {
  status : N;
  statusText : string;
  ok : bool;
  headers_get : string -> option string;
  body : Ref
}.

(** [WebAssembly.WebAssemblyInstantiatedSource]. *)
Record InstantiatedSource := mkSource { instance : Ref; module : Ref }.

Inductive Settled (A : Type) : Type :=
| Fulfilled (a : A)
| Rejected (e : JsError).
Arguments Fulfilled {A} a.
Arguments Rejected {A} e.

(** Calls that leave the adapter: [X] is the type of the value the call
    produces when it does not throw or reject. *)
Inductive Op : Type -> Type :=
| fetch (req : Request) : Op Response
| instantiateStreaming (source : Response) (importObject : option Ref)
  : Op InstantiatedSource
| arrayBuffer (response : Response) : Op Ref
| instantiate (bytes : Ref) (importObject : option Ref) : Op InstantiatedSource
| successCallback (inst modl : Ref) : Op unit.

Inductive Level := Log | Warn | Err.

Inductive LogArg :=
| NoArg
| ErrorArg (e : JsError)
| StringArg (s : string).

(** ** Programs *)

Inductive Prog (A : Type) : Type :=
| Ret (a : A)
| Throw (e : JsError)
| Console (lvl : Level) (msg : string) (arg : LogArg) (k : Prog A)
| Eff {X : Type} (op : Op X) (k : Settled X -> Prog A).
Arguments Ret {A} a.
Arguments Throw {A} e.
Arguments Console {A} lvl msg arg k.
Arguments Eff {A X} op k.

Fixpoint bind {A B} (p : Prog A) (f : A -> Prog B) : Prog B :=
  match p with
  | Ret a => f a
  | Throw e => Throw e
  | Console lvl msg arg k => Console lvl msg arg (bind k f)
  | Eff op k => Eff op (fun o => bind (k o) f)
  end.

(** [try { p } catch (error) { handler error }]. *)
Fixpoint try_catch {A} (p : Prog A) (handler : JsError -> Prog A) : Prog A :=
  match p with
  | Ret a => Ret a
  | Throw e => handler e
  | Console lvl msg arg k => Console lvl msg arg (try_catch k handler)
  | Eff op k => Eff op (fun o => try_catch (k o) handler)
  end.

(** [await op], and a plain call [op(...)]: the value, or the throw. *)
Definition await {X} (op : Op X) : Prog X :=
  Eff op (fun o => match o with
                   | Fulfilled x => Ret x
                   | Rejected e => Throw e
                   end).

Definition console_log (msg : string) : Prog unit := Console Log msg NoArg (Ret tt).
Definition console_warn (msg : string) (arg : LogArg) : Prog unit :=
  Console Warn msg arg (Ret tt).
Definition console_error (msg : string) (arg : LogArg) : Prog unit :=
  Console Err msg arg (Ret tt).

(** [if (c) { p }] *)
Definition when (c : bool) (p : Prog unit) : Prog unit :=
  if c then p else Ret tt.

Declare Scope prog_scope.
Delimit Scope prog_scope with prog.
Notation "x <- p ;; k" := (bind p (fun x => k))
  (at level 61, p at next level, right associativity) : prog_scope.
Notation "p ;; k" := (bind p (fun _ => k))
  (at level 61, right associativity) : prog_scope.
Open Scope prog_scope.

(** ** Events and sequential execution *)

Inductive Call :=
| CFetch (req : Request)
| CInstantiateStreaming (source : Response) (importObject : option Ref)
| CArrayBuffer (response : Response)
| CInstantiate (bytes : Ref) (importObject : option Ref)
| CSuccessCallback (inst modl : Ref).

Inductive Answer :=
| AResponse (r : Response)
| ASource (s : InstantiatedSource)
| ARef (b : Ref)
| AUnit
| AError (e : JsError).

Definition call_of {X} (op : Op X) : Call :=
  match op with
  | fetch req => CFetch req
  | instantiateStreaming r i => CInstantiateStreaming r i
  | arrayBuffer r => CArrayBuffer r
  | instantiate b i => CInstantiate b i
  | successCallback i m => CSuccessCallback i m
  end.

Definition answer_of {X} (op : Op X) : Settled X -> Answer :=
  match op in Op X return Settled X -> Answer with
  | fetch _ => fun o => match o with Fulfilled r => AResponse r | Rejected e => AError e end
  | instantiateStreaming _ _ =>
      fun o => match o with Fulfilled s => ASource s | Rejected e => AError e end
  | arrayBuffer _ => fun o => match o with Fulfilled b => ARef b | Rejected e => AError e end
  | instantiate _ _ =>
      fun o => match o with Fulfilled s => ASource s | Rejected e => AError e end
  | successCallback _ _ =>
      fun o => match o with Fulfilled _ => AUnit | Rejected e => AError e end
  end.

Inductive Event :=
| ELog (lvl : Level) (msg : string) (arg : LogArg)
| EIssue (c : Call)
| EHost (c : Call) (a : Answer).

(** A host answers every call from its own state. *)
Definition Host (W : Type) : Type := forall X, Op X -> W -> Settled X * W.

Fixpoint run {W A} (h : Host W) (p : Prog A) (w : W) : Settled A * W * list Event :=
  match p with
  | Ret a => (Fulfilled a, w, [])
  | Throw e => (Rejected e, w, [])
  | Console lvl msg arg k =>
      let '(o, w', evs) := run h k w in (o, w', ELog lvl msg arg :: evs)
  | Eff op k =>
      let (o, w1) := h _ op w in
      let '(o', w', evs) := run h (k o) w1 in
      (o', w', EHost (call_of op) (answer_of op o) :: evs)
  end.

(** The success-callback invocations of a trace, in order. *)
Fixpoint callbacks (evs : list Event) : list (Ref * Ref) :=
  match evs with
  | [] => []
  | EHost (CSuccessCallback i m) _ :: evs' => (i, m) :: callbacks evs'
  | _ :: evs' => callbacks evs'
  end.

(** The requests of a trace, in order. *)
Fixpoint requests (evs : list Event) : list Request :=
  match evs with
  | [] => []
  | EHost (CFetch req) _ :: evs' => req :: requests evs'
  | _ :: evs' => requests evs'
  end.

(** The messages of the [console.warn] calls of a trace, in order. *)
Fixpoint warnings (evs : list Event) : list string :=
  match evs with
  | [] => []
  | ELog Warn msg _ :: evs' => msg :: warnings evs'
  | _ :: evs' => warnings evs'
  end.

Definition GET (u : string) : Request := mkRequest u "GET" [].
Definition GET_wasm (u : string) : Request :=
  mkRequest u "GET" [("Accept", "application/wasm")].
Definition HEAD (u : string) : Request := mkRequest u "HEAD" [].

(** ** [MediaPipeWasmAdapter.createWasmConfig]
    (src/utils/mediapipe-wasm-adapter.ts) *)

Module CreateWasmConfig.
Section Adapter.

(** [this.wasmPath] *)
Variable wasmPath : string.

Definition locateFile (path prefix : string) : Prog string :=
  if JsString.endsWith path ".wasm" then
    let wasmUrl := wasmPath ++ "/" ++ path in
    console_log ("[MediaPipeWasmAdapter] 定位 WASM 文件: " ++ wasmUrl) ;;
    Ret wasmUrl
  else
    Ret (prefix ++ path).

Definition wasmUrl : string := wasmPath ++ "/vision_wasm_internal.wasm".

(** The body of the outer [try]. *)
Definition streaming (imports : Ref) : Prog Ref :=
  response <- await (fetch (GET_wasm wasmUrl)) ;;
  wasmModule <- await (instantiateStreaming response (Some imports)) ;;
  await (successCallback (instance wasmModule) (module wasmModule)) ;;
  console_log "[MediaPipeWasmAdapter] ✓ WASM 流式实例化成功" ;;
  Ret (instance wasmModule).

(** The body of the inner [try]. *)
Definition buffered (imports : Ref) : Prog Ref :=
  console_log "[MediaPipeWasmAdapter] 尝试 ArrayBuffer 回退方案..." ;;
  response <- await (fetch (GET wasmUrl)) ;;
  wasmBuffer <- await (arrayBuffer response) ;;
  wasmModule <- await (instantiate wasmBuffer (Some imports)) ;;
  await (successCallback (instance wasmModule) (module wasmModule)) ;;
  console_log "[MediaPipeWasmAdapter] ✓ ArrayBuffer 回退方案成功" ;;
  Ret (instance wasmModule).

Definition fallback (imports : Ref) (error : JsError) : Prog Ref :=
  console_error "[MediaPipeWasmAdapter] ✗ WASM 流式实例化失败:" (ErrorArg error) ;;
  try_catch (buffered imports)
    (fun fallbackError =>
       console_error "[MediaPipeWasmAdapter] ✗ ArrayBuffer 回退方案也失败:"
         (ErrorArg fallbackError) ;;
       Throw fallbackError).

Definition instantiateWasm (imports : Ref) : Prog Ref :=
  console_log "[MediaPipeWasmAdapter] 自定义 instantiateWasm 已被调用" ;;
  try_catch (streaming imports) (fallback imports).

End Adapter.
End CreateWasmConfig.

(** [new Error(`HTTP ${response.status}: ${response.statusText}`)] *)
Definition http_error (response : Response) : JsError :=
  Error ("HTTP " ++ JsString.toString (status response) ++ ": " ++ statusText response).

(** [!contentType || !contentType.includes('application/wasm')] *)
Definition mime_suspect (contentType : option string) : bool :=
  JsString.not contentType ||
  negb match contentType with
       | Some s => JsString.includes s "application/wasm"
       | None => false
       end.

(** ** [MediaPipeWasmAdapter.createWasmLoader] (second source) *)

Module CreateWasmLoader.
Section Adapter.

Variable wasmPath : string.

Definition locateFile (path prefix : string) : Prog string :=
  console_log ("[MediaPipeWasmAdapter] 定位文件: " ++ path ++ ", 前缀: " ++ prefix) ;;
  if JsString.endsWith path ".wasm" then
    let fullPath := wasmPath ++ "/" ++ path in
    console_log ("[MediaPipeWasmAdapter] WASM文件路径: " ++ fullPath) ;;
    Ret fullPath
  else
    Ret (prefix ++ path).

Definition wasmFileName : string := "vision_wasm_internal.wasm".
Definition wasmUrl : string := wasmPath ++ "/" ++ wasmFileName.

(** The body of the [try]. *)
Definition streaming (imports : Ref) : Prog Ref :=
  console_log ("[MediaPipeWasmAdapter] 加载WASM: " ++ wasmUrl) ;;
  response <- await (fetch (GET wasmUrl)) ;;
  when (negb (ok response)) (Throw (http_error response)) ;;
  let contentType := headers_get response "content-type" in
  when (mime_suspect contentType)
    (console_warn ("[MediaPipeWasmAdapter] 警告: WASM MIME类型可能不正确: "
                   ++ JsString.template contentType) NoArg) ;;
  wasmModule <- await (instantiateStreaming response (Some imports)) ;;
  await (successCallback (instance wasmModule) (module wasmModule)) ;;
  console_log "[MediaPipeWasmAdapter] ✓ WASM实例化成功" ;;
  Ret (instance wasmModule).

Definition instantiateWasm (imports : Ref) : Prog Ref :=
  console_log "[MediaPipeWasmAdapter] 自定义WASM实例化" ;;
  try_catch (streaming imports)
    (fun error =>
       console_error "[MediaPipeWasmAdapter] ✗ WASM实例化失败:" (ErrorArg error) ;;
       Throw error).

End Adapter.
End CreateWasmLoader.

(** ** Concurrent tasks: [Promise.all]

    A task that has been started runs synchronously up to its first
    [await], where the awaited call has been issued and the task is
    suspended.  The pool then settles one suspended call at a time, in the
    order a schedule dictates; the resumed task again runs up to its next
    suspension.  Every host call of a task counts as awaited, which is the
    case of the tasks started in this repository ([loadWasm] awaits
    [fetch] and [instantiateStreaming] and calls nothing else). *)

Fixpoint sync {A} (p : Prog A) : Prog A * list Event :=
  match p with
  | Console lvl msg arg k =>
      let (p', evs) := sync k in (p', ELog lvl msg arg :: evs)
  | Eff op _ => (p, [EIssue (call_of op)])
  | _ => (p, [])
  end.

(** [tasks.map(start)]: the tasks are started one after the other. *)
Fixpoint spawn {A} (tasks : list (Prog A)) : list (Prog A) * list Event :=
  match tasks with
  | [] => ([], [])
  | t :: ts =>
      let (t', evs) := sync t in
      let (ts', evs') := spawn ts in
      (t' :: ts', (evs ++ evs')%list)
  end.

Definition suspended {A} (p : Prog A) : bool :=
  match p with
  | Eff _ _ => true
  | _ => false
  end.

Definition count_suspended {A} (pool : list (Prog A)) : nat :=
  List.length (filter suspended pool).

(** Settle the call of the [n]-th suspended task and resume that task. *)
Fixpoint settle_nth {W A} (h : Host W) (n : nat) (pool : list (Prog A)) (w : W)
  : list (Prog A) * W * list Event :=
  match pool with
  | [] => ([], w, [])
  | Eff op k :: rest =>
      match n with
      | 0 =>
          let (o, w') := h _ op w in
          let (p', evs) := sync (k o) in
          (p' :: rest, w', EHost (call_of op) (answer_of op o) :: evs)
      | S n' =>
          let '(rest', w', evs) := settle_nth h n' rest w in
          (Eff op k :: rest', w', evs)
      end
  | p :: rest =>
      let '(rest', w', evs) := settle_nth h n rest w in
      (p :: rest', w', evs)
  end.

(** The state of [Promise.all(pool)]: rejected as soon as one task has
    thrown, fulfilled with all the values once every task has returned,
    pending ([None]) otherwise. *)
Fixpoint all_settled {A} (pool : list (Prog A)) : option (Settled (list A)) :=
  match pool with
  | [] => Some (Fulfilled [])
  | Throw e :: _ => Some (Rejected e)
  | Ret a :: rest =>
      match all_settled rest with
      | Some (Fulfilled l) => Some (Fulfilled (a :: l))
      | r => r
      end
  | _ :: rest =>
      match all_settled rest with
      | Some (Rejected e) => Some (Rejected e)
      | _ => None
      end
  end.

(** Drive the pool until [Promise.all] settles; [None] when the schedule
    ends before that. *)
Fixpoint drive {W A} (h : Host W) (sched : list nat) (pool : list (Prog A)) (w : W)
  : option (Settled (list A) * list (Prog A) * W * list Event) :=
  match all_settled pool with
  | Some r => Some (r, pool, w, [])
  | None =>
      match sched with
      | [] => None
      | c :: sched' =>
          let '(pool', w', evs) :=
            settle_nth h (c mod count_suspended pool) pool w in
          match drive h sched' pool' w' with
          | Some (r, pool'', w'', evs') => Some (r, pool'', w'', (evs ++ evs')%list)
          | None => None
          end
      end
  end.

(** [before; const r = await Promise.all(tasks.map(start)) (or the
    rejection); after r] *)
Record Gather (X A : Type) := mkGather {
  before : Prog unit;
  tasks : list (Prog X);
  after : Settled (list X) -> Prog A
}.
Arguments mkGather {X A}.
Arguments before {X A}.
Arguments tasks {X A}.
Arguments after {X A}.

Definition run_gather {W X A} (h : Host W) (sched : list nat) (g : Gather X A) (w : W)
  : option (Settled A * W * list Event) :=
  match run h (before g) w with
  | (Rejected e, w0, evs0) => Some (Rejected e, w0, evs0)
  | (Fulfilled _, w0, evs0) =>
      let (pool, evs1) := spawn (tasks g) in
      match drive h sched pool w0 with
      | None => None
      | Some (r, _, w1, evs2) =>
          let '(o, w2, evs3) := run h (after g r) w1 in
          Some (o, w2, (evs0 ++ evs1 ++ evs2 ++ evs3)%list)
      end
  end.

(** ** [WasmLoader] (second source) *)

Module WasmLoader.
Section Loader.

(** [this.basePath] *)
Variable basePath : string.

Definition loadWasm (wasmFileName : string) : Prog Ref :=
  let wasmUrl := basePath ++ "/" ++ wasmFileName in
  try_catch
    (console_log ("[WasmLoader] 开始加载WASM文件: " ++ wasmUrl) ;;
     response <- await (fetch (GET_wasm wasmUrl)) ;;
     when (negb (ok response)) (Throw (http_error response)) ;;
     let contentType := headers_get response "content-type" in
     when (mime_suspect contentType)
       (console_warn ("[WasmLoader] 警告: MIME类型可能不正确: "
                      ++ JsString.template contentType) NoArg) ;;
     wasmModule <- await (instantiateStreaming response None) ;;
     console_log ("[WasmLoader] ✓ WASM文件加载成功: " ++ wasmFileName) ;;
     Ret (instance wasmModule))
    (fun error =>
       console_error ("[WasmLoader] ✗ WASM文件加载失败: " ++ wasmFileName)
         (ErrorArg error) ;;
       Throw error).

Definition wasmFiles : list string :=
  ["vision_wasm_internal.wasm"; "vision_wasm_nosimd_internal.wasm"].

(** [this.loadWasm(file).catch(err => { console.warn(...); return null; })] *)
Definition preloadTask (file : string) : Prog (option Ref) :=
  try_catch
    (inst <- loadWasm file ;; Ret (Some inst))
    (fun err =>
       console_warn ("[WasmLoader] 预加载失败 (" ++ file ++ "):")
         (StringArg (message err)) ;;
       Ret None).

Definition preloadWasmFiles : Gather (option Ref) unit :=
  {| before := console_log "[WasmLoader] 开始预加载WASM文件...";
     tasks := map preloadTask wasmFiles;
     after := fun all =>
       try_catch
         (match all with
          | Fulfilled _ => Ret tt
          | Rejected error => Throw error
          end ;;
          console_log "[WasmLoader] ✓ WASM文件预加载完成")
         (fun error =>
            console_error "[WasmLoader] ✗ WASM预加载失败:" (ErrorArg error)) |}.

Definition testFiles : list string :=
  ["vision_wasm_internal.wasm"; "vision_wasm_internal.js"].

(** One turn of the [for] loop: [Some b] stands for [return b], [None]
    for falling through to the next turn. *)
Definition validateFile (file : string) : Prog (option bool) :=
  try_catch
    (let url := basePath ++ "/" ++ file in
     response <- await (fetch (HEAD url)) ;;
     if ok response then
       let contentType := headers_get response "content-type" in
       console_log ("[WasmLoader] ✅ " ++ file ++ ": "
                    ++ JsString.toString (status response)
                    ++ " (" ++ JsString.template contentType ++ ")") ;;
       Ret None
     else
       console_error ("[WasmLoader] ❌ " ++ file ++ ": "
                      ++ JsString.toString (status response)) NoArg ;;
       Ret (Some false))
    (fun error =>
       console_error ("[WasmLoader] ❌ " ++ file ++ ": 网络错误") (ErrorArg error) ;;
       Ret (Some false)).

(** [for (const file of files) { ... } console.log(...); return true;] *)
Fixpoint validateLoop (files : list string) : Prog bool :=
  match files with
  | [] =>
      console_log "[WasmLoader] ✓ 所有WASM文件验证通过" ;;
      Ret true
  | file :: rest =>
      r <- validateFile file ;;
      match r with
      | Some b => Ret b
      | None => validateLoop rest
      end
  end.

Definition validateWasmFiles : Prog bool :=
  console_log "[WasmLoader] 验证WASM文件可访问性..." ;;
  validateLoop testFiles.

End Loader.
End WasmLoader.

(** ** Observations on an execution *)

Definition outcome {W A} (r : Settled A * W * list Event) : Settled A := fst (fst r).
Definition final {W A} (r : Settled A * W * list Event) : W := snd (fst r).
Definition events {W A} (r : Settled A * W * list Event) : list Event := snd r.

(** The requests issued by tasks of a pool, in order. *)
Fixpoint issued_requests (evs : list Event) : list Request :=
  match evs with
  | [] => []
  | EIssue (CFetch req) :: evs' => req :: issued_requests evs'
  | _ :: evs' => issued_requests evs'
  end.

(** Whether each request of a trace, in order, came back with a success
    status. *)
Fixpoint checks (evs : list Event) : list bool :=
  match evs with
  | [] => []
  | EHost (CFetch _) (AResponse r) :: evs' => ok r :: checks evs'
  | EHost (CFetch _) _ :: evs' => false :: checks evs'
  | _ :: evs' => checks evs'
  end.

(** ** Scripted hosts

    Concrete hosts on which the adapters are evaluated.  The state of a
    scripted host is the number of requests it has answered. *)

Module Scripted.

Definition TypeError (msg : string) : JsError := mkError "TypeError" msg.
Definition CompileError (msg : string) : JsError := mkError "CompileError" msg.

Definition network_error : JsError := TypeError "Failed to fetch".
Definition mime_error : JsError :=
  TypeError "Incorrect response MIME type. Expected 'application/wasm'.".
Definition status_error : JsError := TypeError "HTTP status code is not ok".
Definition magic_error : JsError :=
  CompileError "expected magic word 00 61 73 6d".

Definition a_header (k v : string) : string -> option string :=
  fun key => if String.eqb key k then Some v else None.

Definition wasm_response : Response :=
  mkResponse 200 "OK" true (a_header "content-type" "application/wasm") 10.
Definition missing_response : Response :=
  mkResponse 404 "Not Found" false (a_header "content-type" "text/html") 12.

Definition streamed : InstantiatedSource := mkSource 1 2.
Definition compiled : InstantiatedSource := mkSource 3 4.

Record Script := mkScript {
  answers : list (Settled Response);
  on_stream : Response -> Settled InstantiatedSource;
  on_compile : Ref -> Settled InstantiatedSource;
  on_callback : Ref -> Ref -> Settled unit
}.

Definition host (s : Script) : Host nat :=
  fun X op =>
    match op in Op X return nat -> Settled X * nat with
    | fetch _ => fun n => (nth n (answers s) (Rejected network_error), S n)
    | instantiateStreaming r _ => fun n => (on_stream s r, n)
    | arrayBuffer r => fun n => (Fulfilled (body r), n)
    | instantiate b _ => fun n => (on_compile s b, n)
    | successCallback i m => fun n => (on_callback s i m, n)
    end.

(** A browser-like streaming compiler: the response must be a success
    with the WebAssembly content type. *)
Definition strict_stream (r : Response) : Settled InstantiatedSource :=
  if negb (ok r) then Rejected status_error
  else if mime_suspect (headers_get r "content-type") then Rejected mime_error
  else Fulfilled streamed.


(** Bytes compile exactly when they are the body of [wasm_response]. *)
Definition compile (b : Ref) : Settled InstantiatedSource :=
  if Nat.eqb b 10 then Fulfilled compiled else Rejected magic_error.

Definition returns (_ _ : Ref) : Settled unit := Fulfilled tt.

(** Every request is answered with the binary. *)
Definition serving : Script :=
  mkScript (repeat (Fulfilled wasm_response) 8) strict_stream compile returns.

(** The first request fails on the network, the later ones are served. *)
Definition flaky : Script :=
  mkScript (Rejected network_error :: repeat (Fulfilled wasm_response) 8)
    strict_stream compile returns.

(** The binary is not deployed: every request is answered 404. *)
Definition missing : Script :=
  mkScript (repeat (Fulfilled missing_response) 8) strict_stream compile returns.


(** The first file is missing, the second is served. *)
Definition second_only : Script :=
  mkScript [Fulfilled missing_response; Fulfilled wasm_response]
    strict_stream compile returns.

End Scripted.

(** ** Console events of the adapters, by name *)

Definition config_intro : Event :=
  ELog Log "[MediaPipeWasmAdapter] 自定义 instantiateWasm 已被调用" NoArg.
Definition config_streaming_failed (error : JsError) : Event :=
  ELog Err "[MediaPipeWasmAdapter] ✗ WASM 流式实例化失败:" (ErrorArg error).
Definition config_buffered_failed (fallbackError : JsError) : Event :=
  ELog Err "[MediaPipeWasmAdapter] ✗ ArrayBuffer 回退方案也失败:" (ErrorArg fallbackError).
Definition loader_intro : Event :=
  ELog Log "[MediaPipeWasmAdapter] 自定义WASM实例化" NoArg.
Definition loader_failed (error : JsError) : Event :=
  ELog Err "[MediaPipeWasmAdapter] ✗ WASM实例化失败:" (ErrorArg error).

(** The import objects of the streaming instantiations of a trace. *)
Fixpoint stream_imports (evs : list Event) : list (option Ref) :=
  match evs with
  | [] => []
  | EHost (CInstantiateStreaming _ importObject) _ :: evs' =>
      importObject :: stream_imports evs'
  | _ :: evs' => stream_imports evs'
  end.

Definition load_started (wasmUrl : string) : Event :=
  ELog Log ("[WasmLoader] 开始加载WASM文件: " ++ wasmUrl) NoArg.
Definition load_warned (response : Response) : list Event :=
  if mime_suspect (headers_get response "content-type")
  then [ELog Warn ("[WasmLoader] 警告: MIME类型可能不正确: "
                   ++ JsString.template (headers_get response "content-type")) NoArg]
  else [].
Definition load_succeeded (wasmFileName : string) : Event :=
  ELog Log ("[WasmLoader] ✓ WASM文件加载成功: " ++ wasmFileName) NoArg.
Definition load_failed (wasmFileName : string) (error : JsError) : Event :=
  ELog Err ("[WasmLoader] ✗ WASM文件加载失败: " ++ wasmFileName) (ErrorArg error).

Definition preload_masked (file : string) (err : JsError) : Event :=
  ELog Warn ("[WasmLoader] 预加载失败 (" ++ file ++ "):") (StringArg (message err)).

(** ** Specifications *)

(** What a short-circuiting sequential check of [files] leaves behind:
    either every file was requested, in order, and every check passed; or
    the files were requested in order up to the first one whose check
    failed, and no further. *)
Definition short_circuited (basePath : string) (files : list string)
  (verdict : bool) (evs : list Event) : Prop :=
  (verdict = true /\
   requests evs = map (fun file => HEAD (basePath ++ "/" ++ file)) files /\
   checks evs = repeat true (List.length files)) \/
  (verdict = false /\
   exists passed file rest,
     files = (passed ++ file :: rest)%list /\
     requests evs
       = map (fun file => HEAD (basePath ++ "/" ++ file)) (passed ++ [file])%list /\
     checks evs = (repeat true (List.length passed) ++ [false])%list).

(** [tame n p]: [p] never throws, never issues a request, and makes at
    most [n] calls to the host. *)
Inductive tame {A} : nat -> Prog A -> Prop :=
| tame_ret n a : tame n (Ret a)
| tame_console n lvl msg arg k : tame n k -> tame n (Console lvl msg arg k)
| tame_eff n X (op : Op X) k :
    (forall req, call_of op <> CFetch req) ->
    (forall o, tame n (k o)) ->
    tame (S n) (Eff op k).

(** [waiting n p]: the task [p] of a pool has returned, or is suspended on
    a call after which it is tame and needs at most [n - 1] more calls. *)
Inductive waiting {A} : nat -> Prog A -> Prop :=
| waiting_ret n a : waiting n (Ret a)
| waiting_eff n X (op : Op X) k : (forall o, tame n (k o)) -> waiting (S n) (Eff op k).

Inductive pool_waiting {A} : nat -> list (Prog A) -> Prop :=
| pw_nil : pool_waiting 0 []
| pw_cons n m p ps :
    waiting n p -> pool_waiting m ps -> pool_waiting (n + m) (p :: ps).

(** Whether an event is the warning by which a preload task masks the
    failure of [file], and whether a trace holds one. *)
Definition is_masked (file : string) (ev : Event) : bool :=
  match ev with
  | ELog Warn msg (StringArg _) =>
      String.eqb msg ("[WasmLoader] 预加载失败 (" ++ file ++ "):")
  | _ => false
  end.

Definition masked_in (file : string) (evs : list Event) : bool :=
  existsb (is_masked file) evs.

(** [masking file warned p]: on every path, the task [p] throws nothing,
    returns an instance only if the masking warning for [file] has not been
    logged and [null] only if it has ([warned] tells whether it has been
    logged before [p]), and logs no masking warning for another file. *)
Inductive masking (file : string) : bool -> Prog (option Ref) -> Prop :=
| masking_some inst : masking file false (Ret (Some inst))
| masking_none : masking file true (Ret None)
| masking_warn reason k :
    masking file true k ->
    masking file false
      (Console Warn ("[WasmLoader] 预加载失败 (" ++ file ++ "):") (StringArg reason) k)
| masking_quiet warned lvl msg arg k :
    (forall other, is_masked other (ELog lvl msg arg) = false) ->
    masking file warned k ->
    masking file warned (Console lvl msg arg k)
| masking_eff warned X (op : Op X) k :
    (forall o, masking file warned (k o)) ->
    masking file warned (Eff op k).

(** ** Tactics *)

(** Splits on the answer of the next host call met by the execution in a
    hypothesis, naming the value [x] when the call succeeds. *)
Ltac next_answer h x :=
  match goal with
  | H : context [h ?X ?op ?w] |- _ =>
      let w' := fresh "w" in
      destruct (h X op w) as [[x|?] w']; cbn in H
  end.

(** ** Constructors, hook objects and exported instances *)

(** [constructor(path: string = '/wasm') { this.path = path; }], the same
    in the three classes: an object is the path it was given, and an
    omitted argument takes the default. *)
Definition construct (path : option string) : string :=
  match path with
  | Some p => p
  | None => "/wasm"
  end.

(** The object literal [{ locateFile, instantiateWasm }]. *)
Module Hooks.
Record t := mk {
  locateFile : string -> string -> Prog string;
  instantiateWasm : Ref -> Prog Ref
}.
End Hooks.

(** [createWasmConfig()] of src/utils/mediapipe-wasm-adapter.ts. *)
Definition createWasmConfig (this : string) : Hooks.t :=
  Hooks.mk (CreateWasmConfig.locateFile this) (CreateWasmConfig.instantiateWasm this).

(** [createWasmLoader()] of the second source. *)
Definition createWasmLoader (this : string) : Hooks.t :=
  Hooks.mk (CreateWasmLoader.locateFile this) (CreateWasmLoader.instantiateWasm this).

(** The object literal [{ wasmLoaderPath, locateFile }]. *)
Module FilesetResolverOptions.
Record t := mk {
  wasmLoaderPath : string;
  locateFile : string -> string -> Prog string
}.
End FilesetResolverOptions.

Definition getFilesetResolverOptions (this : string) : FilesetResolverOptions.t :=
  let wasmLoader := createWasmLoader this in
  FilesetResolverOptions.mk this (Hooks.locateFile wasmLoader).

(** [export const mediaPipeWasmAdapter = new MediaPipeWasmAdapter()] (both
    sources) and [export const wasmLoader = new WasmLoader()]. *)
Definition mediaPipeWasmAdapter : string := construct None.
Definition wasmLoader : string := construct None.

(** ** Further observations *)

(** The calls answered by the host in a trace, in order. *)
Fixpoint host_calls (evs : list Event) : list Call :=
  match evs with
  | [] => []
  | EHost c _ :: evs' => c :: host_calls evs'
  | _ :: evs' => host_calls evs'
  end.

(** The messages of the [console.error] calls of a trace, in order. *)
Fixpoint errors (evs : list Event) : list string :=
  match evs with
  | [] => []
  | ELog Err msg _ :: evs' => msg :: errors evs'
  | _ :: evs' => errors evs'
  end.

(** Answers that depend on the call alone. *)
Definition Oracle : Type := forall X, Op X -> Settled X.

(** A host that answers as an oracle does, whatever has happened before. *)
Definition answers_as {W} (h : Host W) (ans : Oracle) : Prop :=
  forall X (op : Op X) (w : W), fst (h X op w) = ans X op.

(** How a program settles when every call is answered by the oracle. *)
Fixpoint eval {A} (ans : Oracle) (p : Prog A) : Settled A :=
  match p with
  | Ret a => Fulfilled a
  | Throw e => Rejected e
  | Console _ _ _ k => eval ans k
  | Eff op k => eval ans (k (ans _ op))
  end.

(** [null] for a failed load. *)
Definition entry_of (o : Settled Ref) : option Ref :=
  match o with
  | Fulfilled inst => Some inst
  | Rejected _ => None
  end.

(** ** Further hosts *)

Module Fixture.

(** A caller whose success callback rejects the streamed instance. *)
Definition rejected_by_caller : JsError := Error "unexpected exports".

Definition picky (inst _ : Ref) : Settled unit :=
  if Nat.eqb inst (instance Scripted.streamed) then Rejected rejected_by_caller
  else Fulfilled tt.

Definition picky_caller : Scripted.Script :=
  Scripted.mkScript (repeat (Fulfilled Scripted.wasm_response) 8)
    Scripted.strict_stream Scripted.compile picky.

(** A server that knows one file only, and answers by the URL alone. *)
Definition by_url (req : Request) : Settled Response :=
  if String.eqb (url req) "/wasm/vision_wasm_internal.wasm"
  then Fulfilled Scripted.wasm_response
  else Fulfilled Scripted.missing_response.

Definition static_oracle : Oracle :=
  fun X op =>
    match op in Op X return Settled X with
    | fetch req => by_url req
    | instantiateStreaming r _ => Scripted.strict_stream r
    | arrayBuffer r => Fulfilled (body r)
    | instantiate b _ => Scripted.compile b
    | successCallback _ _ => Fulfilled tt
    end.

(** The host of that server: its state counts the calls it has answered. *)
Definition static_host : Host nat :=
  fun X op n => (static_oracle X op, S n).

End Fixture.

(** Splits on the answers of all the host calls met by the execution in
    the goal. *)
Ltac host_cases h :=
  repeat match goal with
         | |- context [h ?X ?op ?w] => destruct (h X op w) as [[?|?] ?]; cbn
         end.

(** ** Executions of one task, and their interleavings *)

(** [thread p own o]: [own] is what one execution of [p] leaves in a trace
    from its start until it settles as [o]: its console lines and, for
    each call, the issue followed by the answer it got. *)
Fixpoint thread {A} (p : Prog A) (own : list Event) (o : Settled A) : Prop :=
  match p with
  | Ret a => own = [] /\ o = Fulfilled a
  | Throw e => own = [] /\ o = Rejected e
  | Console lvl msg arg k =>
      exists own', own = ELog lvl msg arg :: own' /\ thread k own' o
  | Eff op k =>
      exists ans own',
        own = EIssue (call_of op) :: EHost (call_of op) (answer_of op ans) :: own' /\
        thread (k ans) own' o
  end.

(** What is left of the thread of a task of a pool: a suspended task has
    issued its call already. *)
Definition resume {A} (p : Prog A) (rest : list Event) (o : Settled A) : Prop :=
  match p with
  | Eff op k =>
      exists ans rest',
        rest = EHost (call_of op) (answer_of op ans) :: rest' /\
        thread (k ans) rest' o
  | _ => thread p rest o
  end.

(** The task [p] of a pool is what is left of the task [t] after [own]. *)
Definition residual {A} (t p : Prog A) (own : list Event) : Prop :=
  forall rest o, resume p rest o -> thread t (own ++ rest)%list o.

(** Three lists of one length whose elements are related position by
    position. *)
Inductive aligned {T O V} (related : T -> O -> V -> Prop)
  : list T -> list O -> list V -> Prop :=
| aligned_nil : aligned related [] [] []
| aligned_cons task own value tasks owns values :
    related task own value ->
    aligned related tasks owns values ->
    aligned related (task :: tasks) (own :: owns) (value :: values).

(** [extends_one owns chunk owns']: [owns'] is [owns] with [chunk] appended
    to one of its lists (or [owns] itself when [chunk] is empty). *)
Inductive extends_one : list (list Event) -> list Event -> list (list Event) -> Prop :=
| extends_none owns : extends_one owns [] owns
| extends_here own owns chunk : extends_one (own :: owns) chunk ((own ++ chunk)%list :: owns)
| extends_there own owns chunk owns' :
    extends_one owns chunk owns' -> extends_one (own :: owns) chunk (own :: owns').

(** [weave owns evs]: the trace [evs] is an interleaving of the lists
    [owns], each of them cut into chunks that appear in [evs] in order. *)
Inductive weave : list (list Event) -> list Event -> Prop :=
| weave_nil owns : Forall (fun own => own = []) owns -> weave owns []
| weave_snoc owns evs chunk owns' :
    weave owns evs -> extends_one owns chunk owns' -> weave owns' (evs ++ chunk)%list.

(** What one preload task leaves in a trace, by the way its load went, and
    the entry it contributes to [Promise.all]: the fetch was rejected; it
    was answered with a failure status; the streaming instantiation was
    rejected; or the load succeeded.  A failed load ends on the
    [console.error] of [loadWasm] followed by the masking warning, and
    its entry is [null]. *)
Definition preloaded (basePath file : string) (entry : option Ref)
  (own : list Event) : Prop :=
  let wasmUrl := basePath ++ "/" ++ file in
  let request := CFetch (GET_wasm wasmUrl) in
  (exists e,
     entry = None /\
     own = [load_started wasmUrl; EIssue request; EHost request (AError e);
            load_failed file e; preload_masked file e]) \/
  (exists response,
     ok response = false /\ entry = None /\
     own = [load_started wasmUrl; EIssue request; EHost request (AResponse response);
            load_failed file (http_error response);
            preload_masked file (http_error response)]) \/
  (exists response e,
     ok response = true /\ entry = None /\
     own = ([load_started wasmUrl; EIssue request; EHost request (AResponse response)]
            ++ load_warned response
            ++ [EIssue (CInstantiateStreaming response None);
                EHost (CInstantiateStreaming response None) (AError e);
                load_failed file e; preload_masked file e])%list) \/
  (exists response source,
     ok response = true /\ entry = Some (instance source) /\
     own = ([load_started wasmUrl; EIssue request; EHost request (AResponse response)]
            ++ load_warned response
            ++ [EIssue (CInstantiateStreaming response None);
                EHost (CInstantiateStreaming response None) (ASource source);
                load_succeeded file])%list).


(** * Properties *)

(** ** Strings *)

Lemma length_app (s t : string) :
  String.length (s ++ t) = String.length s + String.length t.
Proof. induction s as [|c s IH]; cbn; [reflexivity | now rewrite IH]. Qed.

Lemma substring_all (s : string) : substring 0 (String.length s) s = s.
Proof. induction s as [|c s IH]; cbn; [reflexivity | now rewrite IH]. Qed.

Lemma substring_skip (p s : string) (m : nat) :
  substring (String.length p) m (p ++ s) = substring 0 m s.
Proof. induction p as [|c p IH]; cbn; [reflexivity | exact IH]. Qed.

Lemma substring_split (s : string) (n : nat) :
  n <= String.length s ->
  s = substring 0 n s ++ substring n (String.length s - n) s.
Proof.
  revert n; induction s as [|c s IH]; intros [|n] Hn; cbn in *; try reflexivity.
  - now rewrite substring_all.
  - f_equal. apply IH; lia.
Qed.

Lemma endsWith_spec (s suffix : string) :
  JsString.endsWith s suffix = true <-> exists p, s = p ++ suffix.
Proof.
  unfold JsString.endsWith; split.
  - destruct (Nat.ltb_spec (String.length s) (String.length suffix)) as [Hlt|Hle];
      [discriminate|].
    intros Heq; apply String.eqb_eq in Heq.
    exists (substring 0 (String.length s - String.length suffix) s).
    rewrite (substring_split s (String.length s - String.length suffix)) at 1 by lia.
    f_equal.
    replace (String.length s - (String.length s - String.length suffix))
      with (String.length suffix) by lia.
    exact Heq.
  - intros [p ->]. rewrite length_app.
    destruct (Nat.ltb_spec (String.length p + String.length suffix)
                (String.length suffix)) as [Hlt|Hle]; [lia|].
    replace (String.length p + String.length suffix - String.length suffix)
      with (String.length p) by lia.
    rewrite substring_skip, substring_all. apply String.eqb_refl.
Qed.

Lemma startsWith_spec (s pre : string) :
  JsString.startsWith s pre = true <-> exists q, s = pre ++ q.
Proof.
  revert s; induction pre as [|c pre IH]; intros s; cbn.
  - split; [intros _; now exists s | reflexivity].
  - destruct s as [|d s]; cbn.
    + split; [discriminate | intros [q Hq]; discriminate].
    + rewrite andb_true_iff, IH, Ascii.eqb_eq. split.
      * intros [-> [q ->]]. now exists q.
      * intros [q Hq]. injection Hq as -> ->. split; [reflexivity | now exists q].
Qed.

Lemma includes_spec (s sub : string) :
  JsString.includes s sub = true <-> exists p q, s = p ++ sub ++ q.
Proof.
  induction s as [|d s IH]; cbn [JsString.includes];
    rewrite orb_true_iff, startsWith_spec.
  - split.
    + intros [[q Hq]|H]; [now exists "", q | discriminate].
    + intros [[|c p] [q Hq]]; [left; now exists q | discriminate].
  - rewrite IH. split.
    + intros [[q Hq]|[p [q Hq]]]; [now exists "", q |].
      exists (String d p), q. cbn. now rewrite Hq.
    + intros [[|c p] [q Hq]]; [left; now exists q |].
      right. injection Hq as -> ->. now exists p, q.
Qed.

(** ** Sequential execution of composed programs *)

Lemma run_bind {W A B} (h : Host W) (p : Prog A) (f : A -> Prog B) (w : W) :
  run h (bind p f) w =
  match run h p w with
  | (Fulfilled a, w1, evs1) =>
      let '(o, w2, evs2) := run h (f a) w1 in (o, w2, (evs1 ++ evs2)%list)
  | (Rejected e, w1, evs1) => (Rejected e, w1, evs1)
  end.
Proof.
  revert w; induction p as [a|e|lvl msg arg k IH|X op k IH]; intros w; cbn.
  - now destruct (run h (f a) w) as [[o w2] evs2].
  - reflexivity.
  - rewrite IH. destruct (run h k w) as [[[a|e] w1] evs1]; [|reflexivity].
    now destruct (run h (f a) w1) as [[o w2] evs2].
  - destruct (h X op w) as [o w1]. rewrite IH.
    destruct (run h (k o) w1) as [[[a|e] w2] evs1]; [|reflexivity].
    now destruct (run h (f a) w2) as [[o' w3] evs2].
Qed.

Lemma run_try_catch {W A} (h : Host W) (p : Prog A) (handler : JsError -> Prog A)
  (w : W) :
  run h (try_catch p handler) w =
  match run h p w with
  | (Fulfilled a, w1, evs1) => (Fulfilled a, w1, evs1)
  | (Rejected e, w1, evs1) =>
      let '(o, w2, evs2) := run h (handler e) w1 in (o, w2, (evs1 ++ evs2)%list)
  end.
Proof.
  revert w; induction p as [a|e|lvl msg arg k IH|X op k IH]; intros w; cbn.
  - reflexivity.
  - now destruct (run h (handler e) w) as [[o w2] evs2].
  - rewrite IH. destruct (run h k w) as [[[a|e] w1] evs1]; [reflexivity|].
    now destruct (run h (handler e) w1) as [[o w2] evs2].
  - destruct (h X op w) as [o w1]. rewrite IH.
    destruct (run h (k o) w1) as [[[a|e] w2] evs1]; [reflexivity|].
    now destruct (run h (handler e) w2) as [[o' w3] evs2].
Qed.

(** ** The location resolver *)

(** C1.  Whatever the file name and the default prefix, both versions of
    [locateFile] return [wasmPath + "/" + filename] when the file name ends
    with ".wasm", the default prefix playing no part, and return
    [defaultPrefix + filename] when it does not.  No call leaves the
    adapter. *)
Theorem locateFile_redirects_wasm {W} (h : Host W) (w : W)
  (wasmPath filename defaultPrefix : string) :
  ((exists stem, filename = stem ++ ".wasm") ->
   outcome (run h (CreateWasmConfig.locateFile wasmPath filename defaultPrefix) w)
     = Fulfilled (wasmPath ++ "/" ++ filename) /\
   outcome (run h (CreateWasmLoader.locateFile wasmPath filename defaultPrefix) w)
     = Fulfilled (wasmPath ++ "/" ++ filename)) /\
  (~ (exists stem, filename = stem ++ ".wasm") ->
   outcome (run h (CreateWasmConfig.locateFile wasmPath filename defaultPrefix) w)
     = Fulfilled (defaultPrefix ++ filename) /\
   outcome (run h (CreateWasmLoader.locateFile wasmPath filename defaultPrefix) w)
     = Fulfilled (defaultPrefix ++ filename)).
Proof.
  unfold CreateWasmConfig.locateFile, CreateWasmLoader.locateFile.
  split; intros Hsuffix.
  - apply endsWith_spec in Hsuffix. rewrite Hsuffix. split; reflexivity.
  - destruct (JsString.endsWith filename ".wasm") eqn:Hends.
    + exfalso. apply Hsuffix, endsWith_spec, Hends.
    + split; reflexivity.
Qed.

Lemma locateFile_redirects_wasm_witness :
  (outcome (run (Scripted.host Scripted.serving)
      (CreateWasmConfig.locateFile "/wasm" "vision_wasm_internal.wasm" "/assets/") 0)
     = Fulfilled "/wasm/vision_wasm_internal.wasm" /\
   outcome (run (Scripted.host Scripted.serving)
      (CreateWasmLoader.locateFile "/wasm" "vision_wasm_internal.wasm" "/assets/") 0)
     = Fulfilled "/wasm/vision_wasm_internal.wasm") /\
  (outcome (run (Scripted.host Scripted.serving)
      (CreateWasmConfig.locateFile "/wasm" "vision_wasm_internal.js" "/assets/") 0)
     = Fulfilled "/assets/vision_wasm_internal.js" /\
   outcome (run (Scripted.host Scripted.serving)
      (CreateWasmLoader.locateFile "/wasm" "vision_wasm_internal.js" "/assets/") 0)
     = Fulfilled "/assets/vision_wasm_internal.js").
Proof.
  split.
  - apply (locateFile_redirects_wasm (Scripted.host Scripted.serving) 0
             "/wasm" "vision_wasm_internal.wasm" "/assets/").
    exists "vision_wasm_internal". reflexivity.
  - apply (locateFile_redirects_wasm (Scripted.host Scripted.serving) 0
             "/wasm" "vision_wasm_internal.js" "/assets/").
    intros Hsuffix. apply endsWith_spec in Hsuffix. vm_compute in Hsuffix.
    discriminate Hsuffix.
Defined.

(** ** The instantiator: the streaming path *)

Lemma config_streaming_fulfilled {W} (h : Host W) (wasmPath : string) (imports : Ref)
  (w0 w1 : W) (inst : Ref) (evs : list Event) :
  run h (CreateWasmConfig.streaming wasmPath imports) w0 = (Fulfilled inst, w1, evs) ->
  exists response source,
    inst = instance source /\
    evs = [EHost (CFetch (GET_wasm (CreateWasmConfig.wasmUrl wasmPath)))
             (AResponse response);
           EHost (CInstantiateStreaming response (Some imports)) (ASource source);
           EHost (CSuccessCallback (instance source) (module source)) AUnit;
           ELog Log "[MediaPipeWasmAdapter] ✓ WASM 流式实例化成功" NoArg].
Proof.
  unfold CreateWasmConfig.streaming; cbn; intros Hrun.
  next_answer h response; [|discriminate].
  next_answer h source; [|discriminate].
  next_answer h returned; [|discriminate].
  injection Hrun as <- <- <-. eauto.
Qed.

Lemma loader_streaming_fulfilled {W} (h : Host W) (wasmPath : string) (imports : Ref)
  (w0 w1 : W) (inst : Ref) (evs : list Event) :
  run h (CreateWasmLoader.streaming wasmPath imports) w0 = (Fulfilled inst, w1, evs) ->
  exists response source warning,
    inst = instance source /\
    ok response = true /\
    callbacks warning = [] /\
    evs = ([ELog Log ("[MediaPipeWasmAdapter] 加载WASM: "
                      ++ CreateWasmLoader.wasmUrl wasmPath) NoArg;
            EHost (CFetch (GET (CreateWasmLoader.wasmUrl wasmPath)))
              (AResponse response)]
           ++ warning
           ++ [EHost (CInstantiateStreaming response (Some imports)) (ASource source);
               EHost (CSuccessCallback (instance source) (module source)) AUnit;
               ELog Log "[MediaPipeWasmAdapter] ✓ WASM实例化成功" NoArg])%list.
Proof.
  unfold CreateWasmLoader.streaming; cbn; intros Hrun.
  next_answer h response; [|discriminate].
  destruct (ok response) eqn:Hok; cbn in Hrun; [|discriminate].
  destruct (mime_suspect (headers_get response "content-type")); cbn in Hrun.
  - next_answer h source; [|discriminate].
    next_answer h returned; [|discriminate].
    injection Hrun as <- <- <-.
    eexists response, source, [_]. repeat split; [assumption|reflexivity].
  - next_answer h source; [|discriminate].
    next_answer h returned; [|discriminate].
    injection Hrun as <- <- <-.
    eexists response, source, []. repeat split; assumption.
Qed.

(** [createWasmConfig]'s [instantiateWasm] in terms of its two attempts. *)
Lemma config_instantiateWasm_run {W} (h : Host W) (wasmPath : string) (imports : Ref)
  (w0 : W) :
  run h (CreateWasmConfig.instantiateWasm wasmPath imports) w0 =
  match run h (CreateWasmConfig.streaming wasmPath imports) w0 with
  | (Fulfilled inst, w1, evs1) => (Fulfilled inst, w1, config_intro :: evs1)
  | (Rejected error, w1, evs1) =>
      match run h (CreateWasmConfig.buffered wasmPath imports) w1 with
      | (Fulfilled inst, w2, evs2) =>
          (Fulfilled inst, w2,
           config_intro :: evs1 ++ config_streaming_failed error :: evs2)%list
      | (Rejected fallbackError, w2, evs2) =>
          (Rejected fallbackError, w2,
           config_intro :: evs1 ++ config_streaming_failed error :: evs2
             ++ [config_buffered_failed fallbackError])%list
      end
  end.
Proof.
  unfold CreateWasmConfig.instantiateWasm. cbn [bind console_log run].
  rewrite run_try_catch.
  destruct (run h (CreateWasmConfig.streaming wasmPath imports) w0)
    as [[[inst|error] w1] evs1]; [reflexivity|].
  unfold CreateWasmConfig.fallback. cbn [bind console_error run].
  rewrite run_try_catch.
  destruct (run h (CreateWasmConfig.buffered wasmPath imports) w1)
    as [[[inst|fallbackError] w2] evs2]; reflexivity.
Qed.

(** [createWasmLoader]'s [instantiateWasm] in terms of its single attempt. *)
Lemma loader_instantiateWasm_run {W} (h : Host W) (wasmPath : string) (imports : Ref)
  (w0 : W) :
  run h (CreateWasmLoader.instantiateWasm wasmPath imports) w0 =
  match run h (CreateWasmLoader.streaming wasmPath imports) w0 with
  | (Fulfilled inst, w1, evs1) => (Fulfilled inst, w1, loader_intro :: evs1)
  | (Rejected error, w1, evs1) =>
      (Rejected error, w1, loader_intro :: evs1 ++ [loader_failed error])%list
  end.
Proof.
  unfold CreateWasmLoader.instantiateWasm. cbn [bind console_log run].
  rewrite run_try_catch.
  destruct (run h (CreateWasmLoader.streaming wasmPath imports) w0)
    as [[[inst|error] w1] evs1]; reflexivity.
Qed.

Lemma callbacks_app (evs evs' : list Event) :
  callbacks (evs ++ evs') = (callbacks evs ++ callbacks evs')%list.
Proof.
  induction evs as [|[lvl msg arg|c|[]] evs IH]; cbn; try assumption.
  - reflexivity.
  - now rewrite IH.
Qed.

(** C2.  Whenever the streaming path of [instantiateWasm] succeeds, in
    either version of the adapter, the promise is fulfilled with the
    instance of the streaming-instantiation result; by then the success
    callback has been invoked exactly once, with that very instance as its
    first argument and the compiled module of the same result as its
    second. *)
Theorem streaming_success_calls_back_once {W} (h : Host W) (wasmPath : string)
  (imports : Ref) (w0 w1 : W) (inst : Ref) (evs : list Event) :
  (run h (CreateWasmConfig.streaming wasmPath imports) w0 = (Fulfilled inst, w1, evs) ->
   exists response source,
     run h (CreateWasmConfig.instantiateWasm wasmPath imports) w0
       = (Fulfilled inst, w1, config_intro :: evs) /\
     In (EHost (CInstantiateStreaming response (Some imports)) (ASource source)) evs /\
     inst = instance source /\
     callbacks (config_intro :: evs) = [(inst, module source)]) /\
  (run h (CreateWasmLoader.streaming wasmPath imports) w0 = (Fulfilled inst, w1, evs) ->
   exists response source,
     run h (CreateWasmLoader.instantiateWasm wasmPath imports) w0
       = (Fulfilled inst, w1, loader_intro :: evs) /\
     In (EHost (CInstantiateStreaming response (Some imports)) (ASource source)) evs /\
     inst = instance source /\
     callbacks (loader_intro :: evs) = [(inst, module source)]).
Proof.
  split; intros Hrun.
  - rewrite config_instantiateWasm_run, Hrun.
    apply config_streaming_fulfilled in Hrun as (response & source & -> & ->).
    exists response, source. cbn. auto 6.
  - rewrite loader_instantiateWasm_run, Hrun.
    apply loader_streaming_fulfilled in Hrun
      as (response & source & warning & -> & _ & Hquiet & ->).
    exists response, source. repeat split.
    + cbn. right. right. apply in_or_app. right. now left.
    + cbn. rewrite callbacks_app, Hquiet. reflexivity.
Qed.

Lemma streaming_success_calls_back_once_witness :
  (exists response source,
     run (Scripted.host Scripted.serving) (CreateWasmConfig.instantiateWasm "/wasm" 5) 0
       = (Fulfilled 1, 1,
          config_intro ::
          events (run (Scripted.host Scripted.serving)
                    (CreateWasmConfig.streaming "/wasm" 5) 0)) /\
     In (EHost (CInstantiateStreaming response (Some 5)) (ASource source))
        (events (run (Scripted.host Scripted.serving)
                   (CreateWasmConfig.streaming "/wasm" 5) 0)) /\
     1 = instance source /\
     callbacks (config_intro ::
                events (run (Scripted.host Scripted.serving)
                          (CreateWasmConfig.streaming "/wasm" 5) 0))
       = [(1, module source)]) /\
  (exists response source,
     run (Scripted.host Scripted.serving) (CreateWasmLoader.instantiateWasm "/wasm" 5) 0
       = (Fulfilled 1, 1,
          loader_intro ::
          events (run (Scripted.host Scripted.serving)
                    (CreateWasmLoader.streaming "/wasm" 5) 0)) /\
     In (EHost (CInstantiateStreaming response (Some 5)) (ASource source))
        (events (run (Scripted.host Scripted.serving)
                   (CreateWasmLoader.streaming "/wasm" 5) 0)) /\
     1 = instance source /\
     callbacks (loader_intro ::
                events (run (Scripted.host Scripted.serving)
                          (CreateWasmLoader.streaming "/wasm" 5) 0))
       = [(1, module source)]).
Proof.
  split.
  - apply (streaming_success_calls_back_once (Scripted.host Scripted.serving)
             "/wasm" 5 0 1 1). reflexivity.
  - apply (streaming_success_calls_back_once (Scripted.host Scripted.serving)
             "/wasm" 5 0 1 1). reflexivity.
Defined.

(** ** The instantiator: the buffered fallback *)

Lemma config_buffered_fulfilled {W} (h : Host W) (wasmPath : string) (imports : Ref)
  (w1 w2 : W) (inst : Ref) (evs : list Event) :
  run h (CreateWasmConfig.buffered wasmPath imports) w1 = (Fulfilled inst, w2, evs) ->
  exists response bytes source,
    inst = instance source /\
    evs = [ELog Log "[MediaPipeWasmAdapter] 尝试 ArrayBuffer 回退方案..." NoArg;
           EHost (CFetch (GET (CreateWasmConfig.wasmUrl wasmPath))) (AResponse response);
           EHost (CArrayBuffer response) (ARef bytes);
           EHost (CInstantiate bytes (Some imports)) (ASource source);
           EHost (CSuccessCallback (instance source) (module source)) AUnit;
           ELog Log "[MediaPipeWasmAdapter] ✓ ArrayBuffer 回退方案成功" NoArg].
Proof.
  unfold CreateWasmConfig.buffered; cbn; intros Hrun.
  next_answer h response; [|discriminate].
  next_answer h bytes; [|discriminate].
  next_answer h source; [|discriminate].
  next_answer h returned; [|discriminate].
  injection Hrun as <- <- <-. eauto 6.
Qed.

(** C3, as the code has it.  In [createWasmConfig], whenever the streaming
    attempt fails, for whatever reason, and the buffered attempt that
    follows succeeds, [instantiateWasm] is fulfilled: the same URL has been
    fetched again, without the Accept header, the body buffered and
    compiled from the buffer, the success callback invoked with the
    instance and module so produced, and that instance is the value of the
    promise.  In [createWasmLoader] there is no second attempt: a failure
    of the streaming attempt is logged and thrown again. *)
Theorem buffered_fallback_recovers {W} (h : Host W) (wasmPath : string) (imports : Ref)
  (w0 w1 : W) (error : JsError) (evs1 : list Event) :
  (run h (CreateWasmConfig.streaming wasmPath imports) w0 = (Rejected error, w1, evs1) ->
   forall (w2 : W) (inst : Ref) (evs2 : list Event),
   run h (CreateWasmConfig.buffered wasmPath imports) w1 = (Fulfilled inst, w2, evs2) ->
   exists response bytes source,
     run h (CreateWasmConfig.instantiateWasm wasmPath imports) w0
       = (Fulfilled inst, w2,
          config_intro :: evs1 ++ config_streaming_failed error :: evs2)%list /\
     requests evs2 = [GET (wasmPath ++ "/vision_wasm_internal.wasm")] /\
     In (EHost (CArrayBuffer response) (ARef bytes)) evs2 /\
     In (EHost (CInstantiate bytes (Some imports)) (ASource source)) evs2 /\
     callbacks evs2 = [(instance source, module source)] /\
     inst = instance source) /\
  (run h (CreateWasmLoader.streaming wasmPath imports) w0 = (Rejected error, w1, evs1) ->
   run h (CreateWasmLoader.instantiateWasm wasmPath imports) w0
     = (Rejected error, w1, loader_intro :: evs1 ++ [loader_failed error])%list).
Proof.
  split.
  - intros Hstreaming w2 inst evs2 Hbuffered.
    rewrite config_instantiateWasm_run, Hstreaming, Hbuffered.
    apply config_buffered_fulfilled in Hbuffered as (response & bytes & source & -> & ->).
    exists response, bytes, source. cbn. auto 10.
  - intros Hstreaming. now rewrite loader_instantiateWasm_run, Hstreaming.
Qed.

Lemma buffered_fallback_recovers_witness :
  (exists response bytes source,
     run (Scripted.host Scripted.flaky) (CreateWasmConfig.instantiateWasm "/wasm" 5) 0
       = (Fulfilled 3, 2,
          config_intro ::
          [EHost (CFetch (GET_wasm "/wasm/vision_wasm_internal.wasm"))
             (AError Scripted.network_error)]
          ++ config_streaming_failed Scripted.network_error
          :: events (run (Scripted.host Scripted.flaky)
                       (CreateWasmConfig.buffered "/wasm" 5) 1))%list /\
     requests (events (run (Scripted.host Scripted.flaky)
                         (CreateWasmConfig.buffered "/wasm" 5) 1))
       = [GET "/wasm/vision_wasm_internal.wasm"] /\
     In (EHost (CArrayBuffer response) (ARef bytes))
        (events (run (Scripted.host Scripted.flaky)
                   (CreateWasmConfig.buffered "/wasm" 5) 1)) /\
     In (EHost (CInstantiate bytes (Some 5)) (ASource source))
        (events (run (Scripted.host Scripted.flaky)
                   (CreateWasmConfig.buffered "/wasm" 5) 1)) /\
     callbacks (events (run (Scripted.host Scripted.flaky)
                          (CreateWasmConfig.buffered "/wasm" 5) 1))
       = [(instance source, module source)] /\
     3 = instance source) /\
  run (Scripted.host Scripted.flaky) (CreateWasmLoader.instantiateWasm "/wasm" 5) 0
    = (Rejected Scripted.network_error, 1,
       loader_intro ::
       [ELog Log "[MediaPipeWasmAdapter] 加载WASM: /wasm/vision_wasm_internal.wasm" NoArg;
        EHost (CFetch (GET "/wasm/vision_wasm_internal.wasm"))
          (AError Scripted.network_error)]
       ++ [loader_failed Scripted.network_error])%list.
Proof.
  split.
  - apply (proj1 (buffered_fallback_recovers (Scripted.host Scripted.flaky)
                    "/wasm" 5 0 1 Scripted.network_error _) eq_refl 2 3 _ eq_refl).
  - apply (proj2 (buffered_fallback_recovers (Scripted.host Scripted.flaky)
                    "/wasm" 5 0 1 Scripted.network_error _) eq_refl).
Defined.

(** C3 as stated fails on [createWasmLoader]: the first request fails on
    the network; fetching the same URL again, buffering the body and
    compiling it would all succeed on this host, yet the promise is
    rejected with the network error after a single request, and the
    success callback is never invoked. *)
Lemma loader_streaming_failure_is_final :
  let h := Scripted.host Scripted.flaky in
  let url := "/wasm/vision_wasm_internal.wasm" in
  let r := run h (CreateWasmLoader.instantiateWasm "/wasm" 5) 0 in
  In (EHost (CFetch (GET url)) (AError Scripted.network_error)) (events r) /\
  (h _ (fetch (GET url)) (final r) = (Fulfilled Scripted.wasm_response, 2) /\
   h _ (arrayBuffer Scripted.wasm_response) 2 = (Fulfilled 10, 2) /\
   h _ (instantiate 10 (Some 5)) 2 = (Fulfilled Scripted.compiled, 2) /\
   h _ (successCallback 3 4) 2 = (Fulfilled tt, 2)) /\
  outcome r = Rejected Scripted.network_error /\
  requests (events r) = [GET url] /\
  callbacks (events r) = [].
Proof. cbv zeta. repeat split. vm_compute. auto. Qed.




(** ** The instantiator: status and content type *)

Lemma mime_suspect_spec (contentType : option string) :
  mime_suspect contentType = true <->
  (contentType = None \/
   exists s, contentType = Some s /\ ~ (exists p q, s = p ++ "application/wasm" ++ q)).
Proof.
  unfold mime_suspect, JsString.not. destruct contentType as [s|].
  - split.
    + intros Hsuspect. right. exists s. split; [reflexivity|].
      intros Hin. apply includes_spec in Hin. rewrite Hin in Hsuspect.
      rewrite orb_false_r in Hsuspect. apply String.eqb_eq in Hsuspect. subst s.
      discriminate Hin.
    + intros [Hnone|[s' [Hs' Hout]]]; [discriminate|].
      injection Hs' as <-.
      destruct (JsString.includes s "application/wasm") eqn:Hin.
      * exfalso. apply Hout, includes_spec, Hin.
      * apply orb_true_r.
  - split; [now left | reflexivity].
Qed.

(** C5, as the code has it.  In [createWasmLoader], whenever the fetch
    comes back with a non-success response, [instantiateWasm] is rejected
    with an [Error] whose message is ["HTTP <status>: <statusText>"],
    before any compilation and without invoking the callback.
    [createWasmConfig] does not look at the status: the response is handed
    to the streaming compiler as it is, and when that rejects, the
    streaming attempt fails with the compiler's own error. *)
Theorem failure_status_rejects_in_loader {W} (h : Host W) (wasmPath : string)
  (imports : Ref) (w0 w1 : W) (response : Response) :
  ok response = false ->
  (h _ (fetch (GET (wasmPath ++ "/vision_wasm_internal.wasm"))) w0
     = (Fulfilled response, w1) ->
   run h (CreateWasmLoader.streaming wasmPath imports) w0
     = (Rejected (http_error response), w1,
        [ELog Log ("[MediaPipeWasmAdapter] 加载WASM: "
                   ++ wasmPath ++ "/vision_wasm_internal.wasm") NoArg;
         EHost (CFetch (GET (wasmPath ++ "/vision_wasm_internal.wasm")))
           (AResponse response)]) /\
   outcome (run h (CreateWasmLoader.instantiateWasm wasmPath imports) w0)
     = Rejected (http_error response) /\
   message (http_error response)
     = "HTTP " ++ JsString.toString (status response) ++ ": " ++ statusText response) /\
  (h _ (fetch (GET_wasm (wasmPath ++ "/vision_wasm_internal.wasm"))) w0
     = (Fulfilled response, w1) ->
   forall (e : JsError) (w2 : W),
   h _ (instantiateStreaming response (Some imports)) w1 = (Rejected e, w2) ->
   run h (CreateWasmConfig.streaming wasmPath imports) w0
     = (Rejected e, w2,
        [EHost (CFetch (GET_wasm (wasmPath ++ "/vision_wasm_internal.wasm")))
           (AResponse response);
         EHost (CInstantiateStreaming response (Some imports)) (AError e)])).
Proof.
  intros Hok; split.
  - intros Hfetch.
    assert (Hbody : run h (CreateWasmLoader.streaming wasmPath imports) w0
                    = (Rejected (http_error response), w1,
                       [ELog Log ("[MediaPipeWasmAdapter] 加载WASM: "
                                  ++ wasmPath ++ "/vision_wasm_internal.wasm") NoArg;
                        EHost (CFetch (GET (wasmPath ++ "/vision_wasm_internal.wasm")))
                          (AResponse response)])).
    { unfold CreateWasmLoader.streaming, CreateWasmLoader.wasmUrl,
        CreateWasmLoader.wasmFileName; cbn.
      rewrite Hfetch; cbn. rewrite Hok; cbn. reflexivity. }
    split; [exact Hbody|]. split; [|reflexivity].
    now rewrite loader_instantiateWasm_run, Hbody.
  - intros Hfetch e w2 Hstream.
    unfold CreateWasmConfig.streaming, CreateWasmConfig.wasmUrl; cbn.
    rewrite Hfetch; cbn. rewrite Hstream; cbn. reflexivity.
Qed.

Lemma failure_status_rejects_in_loader_witness :
  outcome (run (Scripted.host Scripted.missing)
             (CreateWasmLoader.instantiateWasm "/wasm" 5) 0)
    = Rejected (Error "HTTP 404: Not Found") /\
  outcome (run (Scripted.host Scripted.missing) (CreateWasmConfig.streaming "/wasm" 5) 0)
    = Rejected Scripted.status_error.
Proof.
  pose proof (failure_status_rejects_in_loader (Scripted.host Scripted.missing)
                "/wasm" 5 0 1 Scripted.missing_response eq_refl) as [Hloader Hconfig].
  split.
  - exact (proj1 (proj2 (Hloader eq_refl))).
  - exact (f_equal outcome (Hconfig eq_refl Scripted.status_error 1 eq_refl)).
Defined.

(** C5 as stated fails on [createWasmConfig]: the binary is answered 404
    and the streaming attempt fails, but with the streaming compiler's
    error, which carries neither the status nor the status text. *)
Lemma config_ignores_failure_status :
  let h := Scripted.host Scripted.missing in
  let r := run h (CreateWasmConfig.streaming "/wasm" 5) 0 in
  events r =
    [EHost (CFetch (GET_wasm "/wasm/vision_wasm_internal.wasm"))
       (AResponse Scripted.missing_response);
     EHost (CInstantiateStreaming Scripted.missing_response (Some 5))
       (AError Scripted.status_error)] /\
  ok Scripted.missing_response = false /\
  outcome r = Rejected Scripted.status_error /\
  Scripted.status_error <> http_error Scripted.missing_response /\
  message Scripted.status_error <> "HTTP 404: Not Found".
Proof. cbv zeta. repeat split; discriminate. Qed.




(** ** [WasmLoader.loadWasm] *)

(** Every execution of [loadWasm], by the answers of the host. *)
Lemma loadWasm_run {W} (h : Host W) (basePath file : string) (w0 : W) :
  run h (WasmLoader.loadWasm basePath file) w0 =
  let wasmUrl := basePath ++ "/" ++ file in
  match h _ (fetch (GET_wasm wasmUrl)) w0 with
  | (Rejected e, w1) =>
      (Rejected e, w1,
       [load_started wasmUrl; EHost (CFetch (GET_wasm wasmUrl)) (AError e);
        load_failed file e])
  | (Fulfilled response, w1) =>
      if ok response then
        match h _ (instantiateStreaming response None) w1 with
        | (Fulfilled source, w2) =>
            (Fulfilled (instance source), w2,
             [load_started wasmUrl; EHost (CFetch (GET_wasm wasmUrl)) (AResponse response)]
             ++ load_warned response
             ++ [EHost (CInstantiateStreaming response None) (ASource source);
                 load_succeeded file])%list
        | (Rejected e, w2) =>
            (Rejected e, w2,
             [load_started wasmUrl; EHost (CFetch (GET_wasm wasmUrl)) (AResponse response)]
             ++ load_warned response
             ++ [EHost (CInstantiateStreaming response None) (AError e);
                 load_failed file e])%list
        end
      else
        (Rejected (http_error response), w1,
         [load_started wasmUrl; EHost (CFetch (GET_wasm wasmUrl)) (AResponse response);
          load_failed file (http_error response)])
  end.
Proof.
  unfold WasmLoader.loadWasm, load_warned. cbn.
  destruct (h Response (fetch (GET_wasm (basePath ++ String "/" file))) w0)
    as [[response|e] w1]; cbn; [|reflexivity].
  destruct (ok response); cbn; [|reflexivity].
  destruct (mime_suspect (headers_get response "content-type")); cbn;
    destruct (h InstantiatedSource (instantiateStreaming response None) w1)
      as [[source|e] w2]; reflexivity.
Qed.

(** C9.  [loadWasm] settles as follows, on every host: a rejected fetch, a
    non-success status (as an [Error] "HTTP <status>: <statusText>") and a
    rejected streaming instantiation all reject the promise with that very
    failure; otherwise the promise is fulfilled with the [instance] field
    of the streaming-instantiation result (not with its [module]).  The
    streaming primitive is only ever called without an import object. *)
Theorem loadWasm_resolves_with_instance {W} (h : Host W) (basePath file : string)
  (w0 : W) :
  (forall (e : JsError) (w1 : W),
     h _ (fetch (GET_wasm (basePath ++ "/" ++ file))) w0 = (Rejected e, w1) ->
     outcome (run h (WasmLoader.loadWasm basePath file) w0) = Rejected e) /\
  (forall (response : Response) (w1 : W),
     h _ (fetch (GET_wasm (basePath ++ "/" ++ file))) w0 = (Fulfilled response, w1) ->
     (ok response = false ->
      outcome (run h (WasmLoader.loadWasm basePath file) w0)
        = Rejected (http_error response)) /\
     (ok response = true ->
      forall (o : Settled InstantiatedSource) (w2 : W),
      h _ (instantiateStreaming response None) w1 = (o, w2) ->
      outcome (run h (WasmLoader.loadWasm basePath file) w0)
        = match o with
          | Fulfilled source => Fulfilled (instance source)
          | Rejected e => Rejected e
          end)) /\
  (forall importObject : option Ref,
     In importObject
       (stream_imports (events (run h (WasmLoader.loadWasm basePath file) w0))) ->
     importObject = None).
Proof.
  rewrite loadWasm_run. cbv zeta. split; [|split].
  - intros e w1 ->. reflexivity.
  - intros response w1 ->. split; intros ->.
    + reflexivity.
    + intros o w2 ->. now destruct o.
  - intros importObject.
    destruct (h Response (fetch (GET_wasm (basePath ++ "/" ++ file))) w0)
      as [[response|e] w1]; [|intros []].
    destruct (ok response); [|intros []].
    unfold load_warned.
    destruct (mime_suspect (headers_get response "content-type"));
      destruct (h InstantiatedSource (instantiateStreaming response None) w1)
        as [[source|e] w2]; cbn; intros [<-|[]]; reflexivity.
Qed.

Lemma loadWasm_resolves_with_instance_witness :
  outcome (run (Scripted.host Scripted.serving)
             (WasmLoader.loadWasm "/wasm" "vision_wasm_internal.wasm") 0)
    = Fulfilled (instance Scripted.streamed) /\
  instance Scripted.streamed <> module Scripted.streamed /\
  outcome (run (Scripted.host Scripted.missing)
             (WasmLoader.loadWasm "/wasm" "vision_wasm_internal.wasm") 0)
    = Rejected (Error "HTTP 404: Not Found") /\
  outcome (run (Scripted.host Scripted.flaky)
             (WasmLoader.loadWasm "/wasm" "vision_wasm_internal.wasm") 0)
    = Rejected Scripted.network_error.
Proof.
  split; [|split; [|split]].
  - exact (proj2 (proj1 (proj2 (loadWasm_resolves_with_instance
             (Scripted.host Scripted.serving) "/wasm" "vision_wasm_internal.wasm" 0))
             Scripted.wasm_response 1 eq_refl) eq_refl
             (Fulfilled Scripted.streamed) 1 eq_refl).
  - discriminate.
  - exact (proj1 (proj1 (proj2 (loadWasm_resolves_with_instance
             (Scripted.host Scripted.missing) "/wasm" "vision_wasm_internal.wasm" 0))
             Scripted.missing_response 1 eq_refl) eq_refl).
  - exact (proj1 (loadWasm_resolves_with_instance
             (Scripted.host Scripted.flaky) "/wasm" "vision_wasm_internal.wasm" 0)
             Scripted.network_error 1 eq_refl).
Defined.

(** ** [WasmLoader.validateWasmFiles] *)

Lemma validateFile_run {W} (h : Host W) (basePath file : string) (w0 : W) :
  run h (WasmLoader.validateFile basePath file) w0 =
  let url := basePath ++ "/" ++ file in
  match h _ (fetch (HEAD url)) w0 with
  | (Fulfilled response, w1) =>
      if ok response then
        (Fulfilled None, w1,
         [EHost (CFetch (HEAD url)) (AResponse response);
          ELog Log ("[WasmLoader] ✅ " ++ file ++ ": "
                    ++ JsString.toString (status response) ++ " ("
                    ++ JsString.template (headers_get response "content-type") ++ ")")
            NoArg])
      else
        (Fulfilled (Some false), w1,
         [EHost (CFetch (HEAD url)) (AResponse response);
          ELog Err ("[WasmLoader] ❌ " ++ file ++ ": "
                    ++ JsString.toString (status response)) NoArg])
  | (Rejected error, w1) =>
      (Fulfilled (Some false), w1,
       [EHost (CFetch (HEAD url)) (AError error);
        ELog Err ("[WasmLoader] ❌ " ++ file ++ ": 网络错误") (ErrorArg error)])
  end.
Proof.
  unfold WasmLoader.validateFile. cbn.
  destruct (h Response (fetch (HEAD (basePath ++ String "/" file))) w0)
    as [[response|error] w1]; cbn; [|reflexivity].
  destruct (ok response); reflexivity.
Qed.

Lemma validateLoop_short_circuits {W} (h : Host W) (basePath : string)
  (files : list string) (w0 : W) :
  exists verdict w1 evs,
    run h (WasmLoader.validateLoop basePath files) w0 = (Fulfilled verdict, w1, evs) /\
    short_circuited basePath files verdict evs.
Proof.
  revert w0; induction files as [|file rest IH]; intros w0.
  - exists true, w0. eexists. split; [reflexivity|].
    left. repeat split.
  - cbn [WasmLoader.validateLoop]. rewrite run_bind, validateFile_run. cbv zeta.
    destruct (h Response (fetch (HEAD (basePath ++ "/" ++ file))) w0)
      as [[response|error] w1].
    + destruct (ok response) eqn:Hok.
      * destruct (IH w1) as (verdict & w2 & evs & Hrun & Hspec). rewrite Hrun.
        exists verdict, w2. eexists. split; [reflexivity|].
        destruct Hspec as [(-> & Hreq & Hchk)
                          |(-> & passed & failing & left & -> & Hreq & Hchk)].
        -- left. cbn. rewrite Hok, Hreq, Hchk. repeat split.
        -- right. split; [reflexivity|].
           exists (file :: passed), failing, left. cbn. rewrite Hok, Hreq, Hchk.
           repeat split.
      * exists false, w1. eexists. split; [reflexivity|].
        right. split; [reflexivity|].
        exists [], file, rest. cbn. rewrite Hok. repeat split.
    + exists false, w1. eexists. split; [reflexivity|].
      right. split; [reflexivity|].
      exists [], file, rest. repeat split.
Qed.

(** C8.  On every host, the loop of [validateWasmFiles] over any list of
    file names, and [validateWasmFiles] itself over its own list, never
    throws: the promise is fulfilled with a verdict.  The files are
    requested one after the other; the verdict is [true] only when every
    file was requested and every response had a success status; it is
    [false] as soon as one request is rejected or answered with another
    status, and then no file after that one is requested. *)
Theorem validate_short_circuits {W} (h : Host W) (basePath : string) (w0 : W) :
  (forall files : list string,
   exists verdict w1 evs,
     run h (WasmLoader.validateLoop basePath files) w0 = (Fulfilled verdict, w1, evs) /\
     short_circuited basePath files verdict evs) /\
  (exists verdict w1 evs,
     run h (WasmLoader.validateWasmFiles basePath) w0 = (Fulfilled verdict, w1, evs) /\
     short_circuited basePath WasmLoader.testFiles verdict evs).
Proof.
  split.
  - intros files. apply validateLoop_short_circuits.
  - unfold WasmLoader.validateWasmFiles. cbn [bind console_log run].
    destruct (validateLoop_short_circuits h basePath WasmLoader.testFiles w0)
      as (verdict & w1 & evs & Hrun & Hspec).
    rewrite Hrun. exists verdict, w1. eexists. split; [reflexivity|].
    exact Hspec.
Qed.

(** The first file is missing on this host: the verdict is [false] and the
    second file is never requested. *)
Example validate_stops_at_first_failure :
  let r := run (Scripted.host Scripted.second_only) (WasmLoader.validateWasmFiles "/wasm") 0 in
  outcome r = Fulfilled false /\
  requests (events r) = [HEAD "/wasm/vision_wasm_internal.wasm"].
Proof. split; reflexivity. Qed.

Example validate_passes_when_all_served :
  let r := run (Scripted.host Scripted.serving) (WasmLoader.validateWasmFiles "/wasm") 0 in
  outcome r = Fulfilled true /\
  requests (events r)
    = [HEAD "/wasm/vision_wasm_internal.wasm"; HEAD "/wasm/vision_wasm_internal.js"].
Proof. split; reflexivity. Qed.

(** ** Task pools *)

Lemma issued_requests_app (evs evs' : list Event) :
  issued_requests (evs ++ evs') = (issued_requests evs ++ issued_requests evs')%list.
Proof.
  induction evs as [|[lvl msg arg|[]|c a] evs IH]; cbn; try assumption.
  - reflexivity.
  - now rewrite IH.
Qed.

Lemma tame_sync {A} (n : nat) (p : Prog A) :
  tame n p -> waiting n (fst (sync p)) /\ issued_requests (snd (sync p)) = [].
Proof.
  induction 1 as [n a|n lvl msg arg k Hk IH|n X op k Hop Hk IH]; cbn.
  - split; [constructor | reflexivity].
  - destruct (sync k) as [p' evs]. exact IH.
  - split; [now constructor|].
    destruct (call_of op) eqn:Hcall; try reflexivity.
    now contradiction (Hop req).
Qed.

Lemma waiting_pool_status {A} (N : nat) (pool : list (Prog A)) :
  pool_waiting N pool ->
  (exists results, all_settled pool = Some (Fulfilled results) /\ pool = map Ret results) \/
  (all_settled pool = None /\ 0 < count_suspended pool /\ 0 < N).
Proof.
  induction 1 as [|n m p ps Hp Hps IH].
  - left. now exists [].
  - destruct Hp as [n v|n X op k Hk]; cbn.
    + destruct IH as [(results & -> & ->)|(-> & Hcount & Hm)].
      * left. now exists (v :: results).
      * right. repeat split; [exact Hcount | lia].
    + right. unfold count_suspended; cbn.
      destruct IH as [(results & -> & _)|(-> & _ & _)]; repeat split; lia.
Qed.

Lemma settle_nth_waiting {W A} (h : Host W) (N : nat) (pool : list (Prog A)) :
  pool_waiting N pool ->
  forall (n : nat) (w : W),
  n < count_suspended pool ->
  exists N',
    N = S N' /\
    pool_waiting N' (fst (fst (settle_nth h n pool w))) /\
    issued_requests (snd (settle_nth h n pool w)) = [] /\
    List.length (fst (fst (settle_nth h n pool w))) = List.length pool.
Proof.
  induction 1 as [|a b p ps Hp Hps IH]; intros n w Hn.
  - cbn in Hn. lia.
  - destruct Hp as [a v|a X op k Hk].
    + cbn [settle_nth]. specialize (IH n w Hn).
      destruct (settle_nth h n ps w) as [[pool' w'] evs]; cbn in *.
      destruct IH as (N' & -> & Hpool & Hissued & Hlen).
      exists (a + N'). repeat split; [lia | | exact Hissued | now rewrite Hlen].
      constructor; [constructor | exact Hpool].
    + destruct n as [|n]; cbn [settle_nth].
      * destruct (h X op w) as [o w'].
        destruct (tame_sync a (k o) (Hk o)) as [Hwait Hissued].
        destruct (sync (k o)) as [p' evs]; cbn in *.
        exists (a + b). split; [reflexivity|].
        split; [now constructor|]. split; [exact Hissued | reflexivity].
      * unfold count_suspended in Hn; cbn in Hn.
        assert (Hn' : n < count_suspended ps) by (unfold count_suspended; lia).
        specialize (IH n w Hn').
        destruct (settle_nth h n ps w) as [[pool' w'] evs]; cbn in *.
        destruct IH as (N' & -> & Hpool & Hissued & Hlen).
        exists (S a + N'). repeat split; [lia | | exact Hissued | now rewrite Hlen].
        constructor; [now constructor | exact Hpool].
Qed.

(** A pool of waiting tasks can only be fulfilled: [Promise.all] never
    rejects on it, the schedule is only too short when it has fewer turns
    than the calls still to settle, and no request is issued on the way. *)
Lemma drive_waiting {W A} (h : Host W) (sched : list nat) :
  forall (N : nat) (pool : list (Prog A)) (w : W),
  pool_waiting N pool ->
  match drive h sched pool w with
  | Some (Fulfilled results, pool', _, evs) =>
      pool' = map Ret results /\
      List.length results = List.length pool /\
      issued_requests evs = []
  | Some (Rejected _, _, _, _) => False
  | None => List.length sched < N
  end.
Proof.
  induction sched as [|c sched IH]; intros N pool w Hpool;
    destruct (waiting_pool_status N pool Hpool)
      as [(results & Hall & Hmap)|(Hall & Hcount & HN)];
    cbn [drive]; rewrite Hall.
  - split; [exact Hmap|]. split; [|reflexivity]. rewrite Hmap. now rewrite length_map.
  - exact HN.
  - split; [exact Hmap|]. split; [|reflexivity]. rewrite Hmap. now rewrite length_map.
  - assert (Hn : c mod count_suspended pool < count_suspended pool)
      by (apply Nat.mod_upper_bound; lia).
    destruct (settle_nth_waiting h N pool Hpool _ w Hn)
      as (N' & -> & Hpool' & Hissued & Hlen).
    destruct (settle_nth h (c mod count_suspended pool) pool w)
      as [[pool' w'] evs]; cbn in *.
    specialize (IH N' pool' w' Hpool').
    destruct (drive h sched pool' w') as [[[[[results|e] pool''] w''] evs']|].
    + destruct IH as (Hmap & Hlen' & Hissued').
      repeat split; [exact Hmap | congruence |].
      now rewrite issued_requests_app, Hissued, Hissued'.
    + exact IH.
    + lia.
Qed.

(** ** [WasmLoader.preloadWasmFiles] *)

(** One preload task: a failure of [loadWasm] is caught, logged and turned
    into [null]. *)
Lemma preloadTask_run {W} (h : Host W) (basePath file : string) (w0 : W) :
  run h (WasmLoader.preloadTask basePath file) w0 =
  match run h (WasmLoader.loadWasm basePath file) w0 with
  | (Fulfilled inst, w1, evs) => (Fulfilled (Some inst), w1, evs)
  | (Rejected err, w1, evs) =>
      (Fulfilled None, w1, evs ++ [preload_masked file err])%list
  end.
Proof.
  unfold WasmLoader.preloadTask. rewrite run_try_catch, run_bind.
  destruct (run h (WasmLoader.loadWasm basePath file) w0) as [[[inst|err] w1] evs];
    cbn; [|reflexivity].
  now rewrite app_nil_r.
Qed.

(** A started preload task has issued its request and is suspended on it;
    whatever the answer, it then runs without throwing, within one more
    call. *)
Lemma preloadTask_sync (basePath file : string) :
  exists k,
    sync (WasmLoader.preloadTask basePath file)
      = (Eff (fetch (GET_wasm (basePath ++ "/" ++ file))) k,
         [load_started (basePath ++ "/" ++ file);
          EIssue (CFetch (GET_wasm (basePath ++ "/" ++ file)))]) /\
    forall o, tame 1 (k o).
Proof.
  eexists; split; [reflexivity|].
  intros [response|e]; cbn; [|repeat constructor].
  destruct (ok response); cbn; [|repeat constructor].
  destruct (mime_suspect (headers_get response "content-type")); cbn;
    repeat constructor; try discriminate;
    intros [source|e]; cbn; repeat constructor.
Qed.

Lemma spawn_preload (basePath : string) (files : list string) :
  pool_waiting (2 * List.length files)
    (fst (spawn (map (WasmLoader.preloadTask basePath) files))) /\
  issued_requests (snd (spawn (map (WasmLoader.preloadTask basePath) files)))
    = map (fun file => GET_wasm (basePath ++ "/" ++ file)) files /\
  List.length (fst (spawn (map (WasmLoader.preloadTask basePath) files)))
    = List.length files.
Proof.
  induction files as [|file files (Hpool & Hissued & Hlen)]; cbn [map spawn].
  - repeat split. constructor.
  - destruct (preloadTask_sync basePath file) as (k & -> & Hk).
    destruct (spawn (map (WasmLoader.preloadTask basePath) files)) as [pool evs];
      cbn in *.
    repeat split; [| now rewrite Hissued | now rewrite Hlen].
    replace (S (List.length files + S (List.length files + 0)))
      with (2 + 2 * List.length files) by lia.
    constructor; [now constructor | exact Hpool].
Qed.

(** *** Which entries are [null] *)

Lemma append_cancel_l (p a b : string) : p ++ a = p ++ b -> a = b.
Proof. induction p as [|c p IH]; cbn; [trivial | intros [= H]; auto]. Qed.

Lemma append_cancel_r (s a b : string) : a ++ s = b ++ s -> a = b.
Proof.
  revert b; induction a as [|c a IH]; intros [|d b] H; cbn in H.
  - reflexivity.
  - apply (f_equal String.length) in H. cbn in H. rewrite length_app in H. lia.
  - apply (f_equal String.length) in H. cbn in H. rewrite length_app in H. lia.
  - injection H as -> H. f_equal. now apply IH.
Qed.

Lemma is_masked_own (file reason : string) :
  is_masked file
    (ELog Warn ("[WasmLoader] 预加载失败 (" ++ file ++ "):") (StringArg reason)) = true.
Proof. apply String.eqb_refl. Qed.

Lemma is_masked_other (file other reason : string) :
  other <> file ->
  is_masked other
    (ELog Warn ("[WasmLoader] 预加载失败 (" ++ file ++ "):") (StringArg reason)) = false.
Proof.
  intros Hother. apply String.eqb_neq. intros Heq. apply Hother.
  apply append_cancel_l, append_cancel_r in Heq. now symmetry.
Qed.

Lemma masked_in_app (file : string) (evs evs' : list Event) :
  masked_in file (evs ++ evs') = masked_in file evs || masked_in file evs'.
Proof. apply existsb_app. Qed.

Lemma masking_sync (file : string) (warned : bool) (p : Prog (option Ref)) :
  masking file warned p ->
  masking file (warned || masked_in file (snd (sync p))) (fst (sync p)) /\
  (forall other, other <> file -> masked_in other (snd (sync p)) = false).
Proof.
  induction 1 as [inst| |reason k Hk [IHk IHo]|warned lvl msg arg k Hquiet Hk [IHk IHo]
                 |warned X op k Hk IH]; cbn [sync].
  - split; [constructor | reflexivity].
  - split; [constructor | reflexivity].
  - destruct (sync k) as [p' evs]; cbn [fst snd] in *. split.
    + unfold masked_in; cbn [existsb]. rewrite is_masked_own. exact IHk.
    + intros other Hother. unfold masked_in; cbn [existsb].
      rewrite is_masked_other by exact Hother. now apply IHo.
  - destruct (sync k) as [p' evs]; cbn [fst snd] in *. split.
    + unfold masked_in; cbn [existsb]. rewrite Hquiet. exact IHk.
    + intros other Hother. unfold masked_in; cbn [existsb].
      rewrite Hquiet. now apply IHo.
  - cbn. rewrite orb_false_r. split; [now constructor | reflexivity].
Qed.

Lemma preloadTask_masking (basePath file : string) :
  masking file false (WasmLoader.preloadTask basePath file).
Proof.
  assert (Hcaught : forall error,
    masking file false
      (Console Err ("[WasmLoader] ✗ WASM文件加载失败: " ++ file) (ErrorArg error)
         (Console Warn ("[WasmLoader] 预加载失败 (" ++ file ++ "):")
            (StringArg (message error)) (Ret None)))).
  { intros error. apply masking_quiet; [reflexivity|].
    apply masking_warn, masking_none. }
  unfold WasmLoader.preloadTask, WasmLoader.loadWasm.
  cbn [bind try_catch console_log console_warn console_error await when].
  apply masking_quiet; [reflexivity|].
  apply masking_eff; intros [response|e]; cbn [bind try_catch]; [|apply Hcaught].
  destruct (ok response);
    cbn [negb bind try_catch console_log console_warn console_error await when];
    [|apply Hcaught].
  assert (Hstream : forall k,
    (forall o : Settled InstantiatedSource,
       (exists source, o = Fulfilled source /\
          k o = Console Log ("[WasmLoader] ✓ WASM文件加载成功: " ++ file) NoArg
                  (Ret (Some (instance source)))) \/
       (exists error, o = Rejected error /\
          k o = Console Err ("[WasmLoader] ✗ WASM文件加载失败: " ++ file)
                  (ErrorArg error)
                  (Console Warn ("[WasmLoader] 预加载失败 (" ++ file ++ "):")
                     (StringArg (message error)) (Ret None)))) ->
    masking file false (Eff (instantiateStreaming response None) k)).
  { intros k Hk. apply masking_eff; intros o.
    destruct (Hk o) as [(source & _ & ->)|(error & _ & ->)]; [|apply Hcaught].
    apply masking_quiet; [reflexivity|]. apply masking_some. }
  destruct (mime_suspect (headers_get response "content-type"));
    cbn [bind try_catch console_log console_warn console_error await when];
    [apply masking_quiet; [reflexivity|] | ];
    apply Hstream; intros [source|error]; [left|right|left|right]; eauto.
Qed.

Lemma masking_later (file : string) (pre evs : list Event) (p : Prog (option Ref)) :
  masked_in file evs = false ->
  masking file (masked_in file pre) p ->
  masking file (masked_in file (pre ++ evs)) p.
Proof. intros Hquiet Hp. now rewrite masked_in_app, Hquiet, orb_false_r. Qed.

Lemma pool_masking_later (pre evs : list Event) (files : list string)
  (pool : list (Prog (option Ref))) :
  (forall file, In file files -> masked_in file evs = false) ->
  Forall2 (fun file p => masking file (masked_in file pre) p) files pool ->
  Forall2 (fun file p => masking file (masked_in file (pre ++ evs)) p) files pool.
Proof.
  intros Hquiet Hpool. induction Hpool as [|file p files pool Hp Hpool IH].
  - constructor.
  - constructor.
    + apply masking_later; [apply Hquiet; now left | exact Hp].
    + apply IH. intros other Hin. apply Hquiet. now right.
Qed.

(** Settling one call keeps every task masking, and only the task that is
    resumed can log a masking warning, for its own file. *)
Lemma settle_nth_masking {W} (h : Host W) (pre : list Event) (files : list string)
  (pool : list (Prog (option Ref))) :
  Forall2 (fun file p => masking file (masked_in file pre) p) files pool ->
  NoDup files ->
  forall (n : nat) (w : W),
  Forall2 (fun file p => masking file (masked_in file (pre ++ snd (settle_nth h n pool w))) p)
    files (fst (fst (settle_nth h n pool w))) /\
  (forall file, masked_in file (snd (settle_nth h n pool w)) = true -> In file files).
Proof.
  induction 1 as [|file p files pool Hp Hpool IH]; intros Hdup n w.
  - split; [constructor | discriminate].
  - apply NoDup_cons_iff in Hdup as [Hfresh Hdup].
    assert (Hskip : forall m,
      Forall2 (fun file p => masking file
                 (masked_in file (pre ++ snd (settle_nth h m pool w))) p)
        (file :: files) (p :: fst (fst (settle_nth h m pool w))) /\
      (forall other, masked_in other (snd (settle_nth h m pool w)) = true ->
                     In other (file :: files))).
    { intros m. destruct (IH Hdup m w) as [Hpool' Hin].
      split; [|intros other Hother; right; now apply Hin].
      constructor; [|exact Hpool'].
      apply masking_later; [|exact Hp].
      destruct (masked_in file (snd (settle_nth h m pool w))) eqn:Hlogged;
        [|reflexivity].
      now apply Hin in Hlogged. }
    remember (masked_in file pre) as warned eqn:Hwarned.
    destruct Hp as [inst| |reason k Hk|warned lvl msg arg k Hquiet Hk|warned X op k Hk];
      subst; cbn [settle_nth];
      try (specialize (Hskip n);
           destruct (settle_nth h n pool w) as [[pool' w'] evs]; exact Hskip).
    destruct n as [|n];
      [|specialize (Hskip n);
        destruct (settle_nth h n pool w) as [[pool' w'] evs]; exact Hskip].
    destruct (h X op w) as [o w'].
    destruct (masking_sync file _ (k o) (Hk o)) as [Hp' Hothers].
    destruct (sync (k o)) as [p' evs]; cbn [fst snd] in *.
    assert (Hsame : forall other,
              masked_in other (EHost (call_of op) (answer_of op o) :: evs)
              = masked_in other evs) by reflexivity.
    split.
    + constructor.
      * now rewrite masked_in_app, Hsame.
      * apply pool_masking_later; [|exact Hpool].
        intros other Hin. rewrite Hsame. apply Hothers. congruence.
    + intros other Hlogged. rewrite Hsame in Hlogged.
      destruct (string_dec other file) as [->|Hother]; [now left|].
      rewrite (Hothers other Hother) in Hlogged. discriminate.
Qed.

Lemma all_settled_fulfilled {A} (pool : list (Prog A)) (results : list A) :
  all_settled pool = Some (Fulfilled results) -> pool = map Ret results.
Proof.
  revert results; induction pool as [|p pool IH]; intros results; cbn.
  - now intros [= <-].
  - destruct p as [a|e|lvl msg arg k|X op k];
      destruct (all_settled pool) as [[l|e']|]; try discriminate.
    intros [= <-]. cbn. f_equal. now apply IH.
Qed.

(** When [Promise.all] is fulfilled, the entry of a file is [null] exactly
    when the warning masking its failure has been logged. *)
Lemma drive_masking {W} (h : Host W) (sched : list nat) :
  forall (files : list string) (pool : list (Prog (option Ref))) (pre : list Event)
         (w : W),
  NoDup files ->
  Forall2 (fun file p => masking file (masked_in file pre) p) files pool ->
  forall results pool' w' evs,
  drive h sched pool w = Some (Fulfilled results, pool', w', evs) ->
  Forall2 (fun file entry => entry = None <-> masked_in file (pre ++ evs) = true)
    files results.
Proof.
  assert (Hdone : forall files results pre,
    Forall2 (fun file p => masking file (masked_in file pre) p) files (map Ret results) ->
    Forall2 (fun file entry => entry = None <-> masked_in file (pre ++ []) = true)
      files results).
  { intros files results pre. rewrite app_nil_r.
    revert files; induction results as [|entry results IH]; intros files Hpool;
      inversion Hpool as [|file p files' pool' Hp Hrest]; subst; constructor.
    - inversion Hp; split; congruence.
    - now apply IH. }
  induction sched as [|c sched IH]; intros files pool pre w Hdup Hpool
    results pool' w' evs; cbn [drive];
    destruct (all_settled pool) as [[results0|e]|] eqn:Hall; try discriminate.
  - intros [= <- <- <- <-]. apply all_settled_fulfilled in Hall. subst pool.
    now apply Hdone.
  - intros [= <- <- <- <-]. apply all_settled_fulfilled in Hall. subst pool.
    now apply Hdone.
  - destruct (settle_nth_masking h pre files pool Hpool Hdup
                (c mod count_suspended pool) w) as [Hpool1 _].
    destruct (settle_nth h (c mod count_suspended pool) pool w)
      as [[pool1 w1] evs1]; cbn [fst snd] in Hpool1.
    destruct (drive h sched pool1 w1) as [[[[[results2|e] pool2] w2] evs2]|] eqn:Hdrive;
      try discriminate.
    intros [= <- <- <- <-]. rewrite app_assoc.
    exact (IH files pool1 (pre ++ evs1)%list w1 Hdup Hpool1 _ _ _ _ Hdrive).
Qed.

Lemma spawn_preload_masking (basePath : string) (files : list string) :
  Forall2 (fun file p => masking file false p)
    files (fst (spawn (map (WasmLoader.preloadTask basePath) files))) /\
  (forall other,
     masked_in other (snd (spawn (map (WasmLoader.preloadTask basePath) files)))
     = false).
Proof.
  induction files as [|file files [IHpool IHquiet]]; cbn [map spawn].
  - split; [constructor | reflexivity].
  - pose proof (masking_sync file false _ (preloadTask_masking basePath file))
      as [Hhead _].
    destruct (preloadTask_sync basePath file) as (k & Hsync & _).
    rewrite Hsync in Hhead |- *.
    destruct (spawn (map (WasmLoader.preloadTask basePath) files)) as [pool evs].
    cbn [fst snd] in *.
    split; [constructor; [exact Hhead | exact IHpool] | exact IHquiet].
Qed.

(** *** The trace of a pool is an interleaving of its tasks' threads *)

Lemma sync_resume {A} (p : Prog A) (rest : list Event) (o : Settled A) :
  resume (fst (sync p)) rest o -> thread p (snd (sync p) ++ rest)%list o.
Proof.
  induction p as [a|e|lvl msg arg k IH|X op k IH]; cbn [sync].
  - trivial.
  - trivial.
  - destruct (sync k) as [p' evs]. cbn [fst snd] in *.
    intros Hrest. cbn. eauto.
  - cbn. intros (ans & rest' & -> & Hk). eauto.
Qed.

Lemma weave_cons_front (own : list Event) (owns : list (list Event)) (evs : list Event) :
  weave owns evs -> weave (own :: owns) (own ++ evs)%list.
Proof.
  induction 1 as [owns Hempty|owns evs chunk owns' Hweave IH Hext].
  - rewrite app_nil_r.
    apply (weave_snoc ([] :: owns) [] own (own :: owns)).
    + apply weave_nil. now constructor.
    + apply (extends_here [] owns own).
  - rewrite app_assoc. eapply weave_snoc; [exact IH|]. now apply extends_there.
Qed.

Lemma spawn_tracked {A} (tasks : list (Prog A)) :
  exists owns,
    aligned residual tasks (fst (spawn tasks)) owns /\
    weave owns (snd (spawn tasks)).
Proof.
  induction tasks as [|t ts (owns & Htracked & Hweave)]; cbn [spawn].
  - exists []. split; constructor. constructor.
  - pose proof (sync_resume t) as Ht.
    destruct (sync t) as [t' evs]. destruct (spawn ts) as [ts' evs'].
    cbn [fst snd] in *. exists (evs :: owns). split.
    + constructor; [exact Ht | exact Htracked].
    + now apply weave_cons_front.
Qed.

Lemma settle_nth_tracked {W A} (h : Host W) (tasks pool : list (Prog A))
  (owns : list (list Event)) :
  aligned residual tasks pool owns ->
  forall (n : nat) (w : W),
  exists owns',
    aligned residual tasks (fst (fst (settle_nth h n pool w))) owns' /\
    extends_one owns (snd (settle_nth h n pool w)) owns'.
Proof.
  induction 1 as [|t p own tasks pool owns Hp Hrest IH]; intros n w.
  - exists []. split; constructor.
  - assert (Hskip : forall m,
      exists owns',
        aligned residual (t :: tasks) (p :: fst (fst (settle_nth h m pool w))) owns' /\
        extends_one (own :: owns) (snd (settle_nth h m pool w)) owns').
    { intros m. destruct (IH m w) as (owns' & Htracked & Hext).
      exists (own :: owns'). split; [now constructor | now apply extends_there]. }
    destruct p as [a|e|lvl msg arg k|X op k]; cbn [settle_nth];
      try (specialize (Hskip n);
           destruct (settle_nth h n pool w) as [[pool' w'] evs]; exact Hskip).
    destruct n as [|n];
      [|specialize (Hskip n);
        destruct (settle_nth h n pool w) as [[pool' w'] evs]; exact Hskip].
    destruct (h X op w) as [o w'].
    pose proof (sync_resume (k o)) as Hsync.
    destruct (sync (k o)) as [p' chunk]. cbn [fst snd] in *.
    exists ((own ++ EHost (call_of op) (answer_of op o) :: chunk)%list :: owns).
    split; [|apply extends_here].
    constructor; [|exact Hrest].
    intros rest o' Hresume. rewrite <- app_assoc. apply Hp.
    cbn. exists o, (chunk ++ rest)%list. split; [reflexivity|]. now apply Hsync.
Qed.

Lemma drive_tracked {W A} (h : Host W) (sched : list nat) (tasks : list (Prog A)) :
  forall (pool : list (Prog A)) (owns : list (list Event)) (pre : list Event) (w : W),
  aligned residual tasks pool owns ->
  weave owns pre ->
  forall r pool' w' evs,
  drive h sched pool w = Some (r, pool', w', evs) ->
  exists owns',
    aligned residual tasks pool' owns' /\ weave owns' (pre ++ evs)%list.
Proof.
  induction sched as [|c sched IH]; intros pool owns pre w Htracked Hweave
    r pool' w' evs; cbn [drive];
    destruct (all_settled pool) as [r0|] eqn:Hall; try discriminate.
  - intros [= <- <- <- <-]. exists owns. now rewrite app_nil_r.
  - intros [= <- <- <- <-]. exists owns. now rewrite app_nil_r.
  - destruct (settle_nth_tracked h tasks pool owns Htracked
                (c mod count_suspended pool) w) as (owns1 & Htracked1 & Hext).
    destruct (settle_nth h (c mod count_suspended pool) pool w)
      as [[pool1 w1] evs1]. cbn [fst snd] in *.
    destruct (drive h sched pool1 w1) as [[[[r2 pool2] w2] evs2]|] eqn:Hdrive;
      [|discriminate].
    intros [= <- <- <- <-]. rewrite app_assoc.
    eapply (IH pool1 owns1 (pre ++ evs1)%list w1 Htracked1); [|exact Hdrive].
    eapply weave_snoc; eassumption.
Qed.

Lemma tracked_done {A} (tasks : list (Prog A)) (results : list A)
  (owns : list (list Event)) :
  aligned residual tasks (map Ret results) owns ->
  aligned (fun t own a => thread t own (Fulfilled a)) tasks owns results.
Proof.
  revert tasks owns; induction results as [|a results IH]; intros tasks owns Htracked;
    inversion Htracked as [|t p own ts ps os Hp Hrest]; subst; constructor.
  - rewrite <- (app_nil_r own). apply Hp. cbn. auto.
  - now apply IH.
Qed.

(** A settled preload task has left one of the four traces of
    [preloaded], with the matching entry. *)
Lemma preloadTask_thread (basePath file : string) (own : list Event)
  (entry : option Ref) :
  thread (WasmLoader.preloadTask basePath file) own (Fulfilled entry) ->
  preloaded basePath file entry own.
Proof.
  unfold WasmLoader.preloadTask, WasmLoader.loadWasm, preloaded, load_warned.
  cbn. intros (own1 & -> & [response|e] & own2 & -> & Hrest); cbn in Hrest.
  - destruct (ok response) eqn:Hok; cbn in Hrest.
    + right. right.
      destruct (mime_suspect (headers_get response "content-type")) eqn:Hmime;
        cbn in Hrest.
      * destruct Hrest as (own3 & -> & [source|e] & own4 & -> & Hrest); cbn in Hrest.
        -- destruct Hrest as (own5 & -> & -> & [= ->]).
           right. exists response, source. rewrite Hmime. repeat split; first [assumption | reflexivity].
        -- destruct Hrest as (own5 & -> & own6 & -> & -> & [= ->]).
           left. exists response, e. rewrite Hmime. repeat split; first [assumption | reflexivity].
      * destruct Hrest as ([source|e] & own4 & -> & Hrest); cbn in Hrest.
        -- destruct Hrest as (own5 & -> & -> & [= ->]).
           right. exists response, source. rewrite Hmime. repeat split; first [assumption | reflexivity].
        -- destruct Hrest as (own5 & -> & own6 & -> & -> & [= ->]).
           left. exists response, e. rewrite Hmime. repeat split; first [assumption | reflexivity].
    + destruct Hrest as (own5 & -> & own6 & -> & -> & [= ->]).
      right. left. exists response. repeat split; first [assumption | reflexivity].
  - destruct Hrest as (own5 & -> & own6 & -> & -> & [= ->]).
    left. exists e. repeat split; first [assumption | reflexivity].
Qed.

Lemma preload_threads (basePath : string) (files : list string)
  (owns : list (list Event)) (results : list (option Ref)) :
  aligned (fun t own a => thread t own (Fulfilled a))
    (map (WasmLoader.preloadTask basePath) files) owns results ->
  aligned (fun file own entry => preloaded basePath file entry own) files owns results.
Proof.
  revert owns results; induction files as [|file files IH]; intros owns results Hthreads;
    inversion Hthreads as [|t own entry ts os es Hthread Hrest]; subst; constructor.
  - now apply preloadTask_thread.
  - now apply IH.
Qed.

(** C7.  [preloadWasmFiles] never rejects.  Each task turns a failure of
    its [loadWasm] into a logged warning and the value [null].  Whatever
    the host answers and in whatever order the four calls settle, the
    promise is never rejected; once the calls have settled, every file has
    its entry in the result of [Promise.all], failed or not, and the
    promise is fulfilled; the entry of a file is [null] exactly when the
    warning masking the failure of that file has been logged.  The trace
    is then an interleaving of one complete load per file of the fixed
    list, none cut short by the failure of another: a load whose fetch was
    rejected, whose response had a failure status or whose streaming
    instantiation was rejected has logged its error and the masking
    warning and has [null] for entry; a load that went through has the
    instance of its own streaming result for entry. *)
Theorem preload_always_resolves {W} (h : Host W) (basePath : string) :
  (forall (file : string) (w0 : W),
     run h (WasmLoader.preloadTask basePath file) w0 =
     match run h (WasmLoader.loadWasm basePath file) w0 with
     | (Fulfilled inst, w1, evs) => (Fulfilled (Some inst), w1, evs)
     | (Rejected err, w1, evs) =>
         (Fulfilled None, w1, evs ++ [preload_masked file err])%list
     end) /\
  (forall (sched : list nat) (w0 : W) (e : JsError) (w1 : W) (evs : list Event),
     run_gather h sched (WasmLoader.preloadWasmFiles basePath) w0
       <> Some (Rejected e, w1, evs)) /\
  (forall (sched : list nat) (w0 : W),
     4 <= List.length sched ->
     exists results w1 evs,
       drive h sched (fst (spawn (tasks (WasmLoader.preloadWasmFiles basePath)))) w0
         = Some (Fulfilled results, map Ret results, w1, evs) /\
       List.length results = 2 /\
       exists evs',
         run_gather h sched (WasmLoader.preloadWasmFiles basePath) w0
           = Some (Fulfilled tt, w1, evs')) /\
  (forall (sched : list nat) (w0 w1 : W) (results : list (option Ref))
          (pool : list (Prog (option Ref))) (evs : list Event),
     drive h sched (fst (spawn (tasks (WasmLoader.preloadWasmFiles basePath)))) w0
       = Some (Fulfilled results, pool, w1, evs) ->
     Forall2 (fun file entry => entry = None <-> masked_in file evs = true)
       WasmLoader.wasmFiles results) /\
  (forall (sched : list nat) (w0 w1 : W) (results : list (option Ref))
          (pool : list (Prog (option Ref))) (evs : list Event),
     drive h sched (fst (spawn (tasks (WasmLoader.preloadWasmFiles basePath)))) w0
       = Some (Fulfilled results, pool, w1, evs) ->
     exists owns,
       weave owns (snd (spawn (tasks (WasmLoader.preloadWasmFiles basePath))) ++ evs)%list /\
       aligned (fun file own entry => preloaded basePath file entry own)
         ["vision_wasm_internal.wasm"; "vision_wasm_nosimd_internal.wasm"]
         owns results).
Proof.
  split; [intros file w0; apply preloadTask_run|].
  pose proof (spawn_preload basePath WasmLoader.wasmFiles) as (Hpool & _ & Hlen).
  split; [|split; [|split]]; cycle 2.
  - intros sched w0 w1 results pool evs Hdrive.
    destruct (spawn_preload_masking basePath WasmLoader.wasmFiles) as [Hmasking Hquiet].
    assert (Hdup : NoDup WasmLoader.wasmFiles).
    { repeat constructor; cbn; intuition discriminate. }
    eapply Forall2_impl;
      [|eapply (drive_masking h sched WasmLoader.wasmFiles _ _ w0 Hdup);
        [|exact Hdrive]].
    + cbn beta. intros file entry. rewrite masked_in_app, Hquiet. trivial.
    + eapply Forall2_impl; [|exact Hmasking].
      cbn beta. intros file p. now rewrite Hquiet.
  - intros sched w0 w1 results pool evs Hdrive.
    destruct (spawn_tracked (tasks (WasmLoader.preloadWasmFiles basePath)))
      as (owns0 & Htracked0 & Hweave0).
    destruct (drive_tracked h sched _ _ _ _ w0 Htracked0 Hweave0 _ _ _ _ Hdrive)
      as (owns & Htracked & Hweave).
    pose proof (drive_waiting h sched _ _ w0 Hpool) as Hwaiting.
    cbn [WasmLoader.preloadWasmFiles tasks] in Hdrive.
    rewrite Hdrive in Hwaiting. destruct Hwaiting as (-> & _ & _).
    exists owns. split; [exact Hweave|].
    apply (preload_threads basePath WasmLoader.wasmFiles), tracked_done, Htracked.
  - intros sched w0 e w1 evs.
    unfold run_gather. cbn [WasmLoader.preloadWasmFiles before tasks after console_log run].
    pose proof (drive_waiting h sched _ _ w0 Hpool) as Hdrive.
    destruct (spawn (map (WasmLoader.preloadTask basePath) WasmLoader.wasmFiles))
      as [pool evs0]; cbn in Hdrive |- *.
    destruct (drive h sched pool w0) as [[[[[results|e'] pool'] w'] evs1]|];
      [discriminate | contradiction | discriminate].
  - intros sched w0 Hsched.
    unfold run_gather. cbn [WasmLoader.preloadWasmFiles before tasks after console_log run].
    pose proof (drive_waiting h sched _ _ w0 Hpool) as Hdrive.
    destruct (spawn (map (WasmLoader.preloadTask basePath) WasmLoader.wasmFiles))
      as [pool evs0]; cbn in Hdrive, Hlen |- *.
    destruct (drive h sched pool w0) as [[[[[results|e'] pool'] w'] evs1]|];
      [|contradiction|lia].
    destruct Hdrive as (-> & Hresults & _).
    exists results, w', evs1. repeat split; [congruence|].
    eexists; reflexivity.
Qed.

Lemma preload_always_resolves_witness :
  (exists results w1 evs,
     drive (Scripted.host Scripted.second_only) [1; 0; 0; 0]
       (fst (spawn (tasks (WasmLoader.preloadWasmFiles "/wasm")))) 0
       = Some (Fulfilled results, map Ret results, w1, evs) /\
     List.length results = 2 /\
     exists evs',
       run_gather (Scripted.host Scripted.second_only) [1; 0; 0; 0]
         (WasmLoader.preloadWasmFiles "/wasm") 0
         = Some (Fulfilled tt, w1, evs')) /\
  match drive (Scripted.host Scripted.second_only) [1; 0; 0; 0]
          (fst (spawn (tasks (WasmLoader.preloadWasmFiles "/wasm")))) 0 with
  | Some (Fulfilled results, _, _, evs) =>
      results = [Some 1; None] /\
      exists owns,
        weave owns (snd (spawn (tasks (WasmLoader.preloadWasmFiles "/wasm"))) ++ evs)%list /\
        aligned (fun file own entry => preloaded "/wasm" file entry own)
          ["vision_wasm_internal.wasm"; "vision_wasm_nosimd_internal.wasm"]
          owns results
  | _ => False
  end.
Proof.
  split.
  - apply (proj1 (proj2 (proj2 (preload_always_resolves
                                  (Scripted.host Scripted.second_only) "/wasm")))
             [1; 0; 0; 0] 0).
    cbn. lia.
  - exact (conj eq_refl
             (proj2 (proj2 (proj2 (proj2 (preload_always_resolves
                                            (Scripted.host Scripted.second_only) "/wasm"))))
                [1; 0; 0; 0] 0 _ _ _ _ eq_refl)).
Defined.

(** The second file settles first and is missing on this host; the first
    one is then served and instantiated all the same. *)
Example preload_masks_one_failure :
  exists w1 evs,
    drive (Scripted.host Scripted.second_only) [1; 0; 0; 0]
      (fst (spawn (tasks (WasmLoader.preloadWasmFiles "/wasm")))) 0
      = Some (Fulfilled [Some 1; None], [Ret (Some 1); Ret None], w1, evs) /\
    warnings evs = ["[WasmLoader] 预加载失败 (vision_wasm_nosimd_internal.wasm):"].
Proof. do 2 eexists. split; reflexivity. Qed.

(** ** The fixed file lists *)




(** * Further properties of the code *)

(** ** What the hooks never do *)

Lemma requests_app (evs evs' : list Event) :
  requests (evs ++ evs') = (requests evs ++ requests evs')%list.
Proof.
  induction evs as [|[lvl msg arg|c|[] a] evs IH]; cbn; try assumption.
  - reflexivity.
  - now rewrite IH.
Qed.

Lemma host_calls_app (evs evs' : list Event) :
  host_calls (evs ++ evs') = (host_calls evs ++ host_calls evs')%list.
Proof.
  induction evs as [|[lvl msg arg|c|c a] evs IH]; cbn; try assumption.
  - reflexivity.
  - now rewrite IH.
Qed.

Lemma warnings_app (evs evs' : list Event) :
  warnings (evs ++ evs') = (warnings evs ++ warnings evs')%list.
Proof.
  induction evs as [|[[] msg arg|c|c a] evs IH]; cbn; try assumption.
  - reflexivity.
  - now rewrite IH.
Qed.

(** X1.  Neither version of [locateFile] ever calls the host: whatever the
    arguments, the state of the host is untouched and the trace holds
    console lines only.  [createWasmConfig]'s version is silent on names
    it does not redirect; [createWasmLoader]'s version logs every query. *)
Theorem locateFile_stays_local {W} (h : Host W) (w : W)
  (wasmPath filename defaultPrefix : string) :
  (final (run h (CreateWasmConfig.locateFile wasmPath filename defaultPrefix) w) = w /\
   host_calls (events (run h (CreateWasmConfig.locateFile wasmPath filename defaultPrefix) w))
     = []) /\
  (final (run h (CreateWasmLoader.locateFile wasmPath filename defaultPrefix) w) = w /\
   host_calls (events (run h (CreateWasmLoader.locateFile wasmPath filename defaultPrefix) w))
     = []) /\
  (~ (exists stem, filename = stem ++ ".wasm") ->
   events (run h (CreateWasmConfig.locateFile wasmPath filename defaultPrefix) w) = []) /\
  (exists rest,
     events (run h (CreateWasmLoader.locateFile wasmPath filename defaultPrefix) w)
     = ELog Log ("[MediaPipeWasmAdapter] 定位文件: " ++ filename ++ ", 前缀: "
                 ++ defaultPrefix) NoArg :: rest).
Proof.
  unfold CreateWasmConfig.locateFile, CreateWasmLoader.locateFile.
  destruct (JsString.endsWith filename ".wasm") eqn:Hends; cbn.
  - repeat split; eauto.
    intros Hsuffix. exfalso. apply Hsuffix, endsWith_spec, Hends.
  - repeat split; eauto.
Qed.

Lemma locateFile_stays_local_witness :
  events (run (Scripted.host Scripted.serving)
            (CreateWasmConfig.locateFile "/wasm" "vision_wasm_internal.js" "/assets/") 0)
  = [].
Proof.
  apply (locateFile_stays_local (Scripted.host Scripted.serving) 0
           "/wasm" "vision_wasm_internal.js" "/assets/").
  intros Hsuffix. apply endsWith_spec in Hsuffix. vm_compute in Hsuffix.
  discriminate Hsuffix.
Defined.

Lemma config_streaming_calls {W} (h : Host W) (wasmPath : string) (imports : Ref)
  (w0 : W) :
  requests (events (run h (CreateWasmConfig.streaming wasmPath imports) w0))
    = [GET_wasm (wasmPath ++ "/vision_wasm_internal.wasm")] /\
  List.length (callbacks (events (run h (CreateWasmConfig.streaming wasmPath imports) w0)))
    <= 1.
Proof.
  unfold CreateWasmConfig.streaming, CreateWasmConfig.wasmUrl; cbn.
  host_cases h; split; solve [reflexivity | cbn; lia].
Qed.

Lemma config_buffered_calls {W} (h : Host W) (wasmPath : string) (imports : Ref)
  (w0 : W) :
  requests (events (run h (CreateWasmConfig.buffered wasmPath imports) w0))
    = [GET (wasmPath ++ "/vision_wasm_internal.wasm")] /\
  List.length (callbacks (events (run h (CreateWasmConfig.buffered wasmPath imports) w0)))
    <= 1.
Proof.
  unfold CreateWasmConfig.buffered, CreateWasmConfig.wasmUrl; cbn.
  host_cases h; split; solve [reflexivity | cbn; lia].
Qed.

(** X2.  [createWasmConfig]'s [instantiateWasm] never retries beyond its
    single fallback.  On every host it sends the request with the Accept
    header once; it sends the plain request, once and after it, exactly
    when the streaming attempt has failed; and it invokes the success
    callback at most twice. *)
Theorem config_requests_at_most_twice {W} (h : Host W) (wasmPath : string)
  (imports : Ref) (w0 : W) :
  requests (events (run h (CreateWasmConfig.instantiateWasm wasmPath imports) w0))
    = GET_wasm (wasmPath ++ "/vision_wasm_internal.wasm")
      :: match outcome (run h (CreateWasmConfig.streaming wasmPath imports) w0) with
         | Fulfilled _ => []
         | Rejected _ => [GET (wasmPath ++ "/vision_wasm_internal.wasm")]
         end /\
  List.length
    (callbacks (events (run h (CreateWasmConfig.instantiateWasm wasmPath imports) w0)))
    <= 2.
Proof.
  rewrite config_instantiateWasm_run.
  destruct (config_streaming_calls h wasmPath imports w0) as [Hreq1 Hcb1].
  destruct (run h (CreateWasmConfig.streaming wasmPath imports) w0)
    as [[[inst|error] w1] evs1]; cbn [outcome events fst snd] in *.
  - cbn. rewrite Hreq1. split; [reflexivity | lia].
  - destruct (config_buffered_calls h wasmPath imports w1) as [Hreq2 Hcb2].
    destruct (run h (CreateWasmConfig.buffered wasmPath imports) w1)
      as [[[inst|fallbackError] w2] evs2]; cbn [outcome events fst snd] in *.
    + cbn [requests callbacks config_intro].
      rewrite requests_app, callbacks_app, Hreq1, List.length_app.
      cbn [requests callbacks config_streaming_failed]. rewrite Hreq2.
      split; [reflexivity | lia].
    + cbn [requests callbacks config_intro].
      rewrite requests_app, callbacks_app, Hreq1, List.length_app.
      cbn [requests callbacks config_streaming_failed].
      rewrite requests_app, callbacks_app, Hreq2, List.length_app. cbn.
      split; [reflexivity | lia].
Qed.

(** X3.  [createWasmLoader]'s [instantiateWasm] makes one attempt only.  On
    every host it sends exactly one request, a plain GET of the binary;
    after it, at most one streaming instantiation with the caller's
    imports and then at most one invocation of the success callback; it
    never reads a body and never compiles from a buffer. *)
Theorem loader_attempts_once {W} (h : Host W) (wasmPath : string) (imports : Ref)
  (w0 : W) :
  exists tail,
    host_calls (events (run h (CreateWasmLoader.instantiateWasm wasmPath imports) w0))
      = CFetch (GET (wasmPath ++ "/vision_wasm_internal.wasm")) :: tail /\
    (tail = [] \/
     (exists response, tail = [CInstantiateStreaming response (Some imports)]) \/
     (exists response source,
        tail = [CInstantiateStreaming response (Some imports);
                CSuccessCallback (instance source) (module source)])).
Proof.
  unfold CreateWasmLoader.instantiateWasm, CreateWasmLoader.streaming,
    CreateWasmLoader.wasmUrl, CreateWasmLoader.wasmFileName; cbn.
  destruct (h Response (fetch (GET (wasmPath ++ "/vision_wasm_internal.wasm"))) w0)
    as [[response|e] w1]; cbn; [|eauto].
  destruct (ok response); cbn; [|eauto].
  destruct (mime_suspect (headers_get response "content-type")); cbn;
    host_cases h; eauto 8.
Qed.

(** X4.  Whenever [createWasmConfig]'s [instantiateWasm] is fulfilled, by
    either path, the last invocation of the success callback carried the
    very instance the promise is fulfilled with; at most one invocation
    came before it. *)
Theorem config_fulfilled_after_callback {W} (h : Host W) (wasmPath : string)
  (imports : Ref) (w0 : W) (inst : Ref) :
  outcome (run h (CreateWasmConfig.instantiateWasm wasmPath imports) w0) = Fulfilled inst ->
  exists before modl,
    callbacks (events (run h (CreateWasmConfig.instantiateWasm wasmPath imports) w0))
      = (before ++ [(inst, modl)])%list /\
    List.length before <= 1.
Proof.
  rewrite config_instantiateWasm_run.
  destruct (config_streaming_calls h wasmPath imports w0) as [_ Hcb1].
  destruct (run h (CreateWasmConfig.streaming wasmPath imports) w0)
    as [[[inst1|error] w1] evs1] eqn:Hstreaming; cbn [outcome events fst snd] in *.
  - intros [= <-].
    apply config_streaming_fulfilled in Hstreaming as (response & source & -> & ->).
    exists [], (module source). split; [reflexivity | cbn; lia].
  - destruct (run h (CreateWasmConfig.buffered wasmPath imports) w1)
      as [[[inst2|fallbackError] w2] evs2] eqn:Hbuffered;
      cbn [outcome fst snd]; [|discriminate].
    intros [= <-].
    apply config_buffered_fulfilled in Hbuffered as (response & bytes & source & -> & ->).
    exists (callbacks evs1), (module source). split; [|exact Hcb1].
    cbn [events snd callbacks config_intro]. rewrite callbacks_app. reflexivity.
Qed.

Lemma config_fulfilled_after_callback_witness :
  exists before modl,
    callbacks (events (run (Scripted.host Scripted.flaky)
                         (CreateWasmConfig.instantiateWasm "/wasm" 5) 0))
      = (before ++ [(3, modl)])%list /\
    List.length before <= 1.
Proof.
  apply (config_fulfilled_after_callback (Scripted.host Scripted.flaky) "/wasm" 5 0 3).
  reflexivity.
Defined.

(** X5.  In [createWasmConfig], a success callback that throws counts as a
    failure of the streaming attempt, although the binary did compile: the
    fallback is entered with the callback's error, and when the buffered
    attempt goes through, the callback has been invoked twice, first with
    the streamed instance and module, then with the ones compiled from the
    buffer, and the promise is fulfilled with the second instance. *)
Theorem config_throwing_callback_is_called_again {W} (h : Host W) (wasmPath : string)
  (imports : Ref) (w0 w1 w2 w3 : W) (response : Response)
  (source : InstantiatedSource) (error : JsError) :
  h _ (fetch (GET_wasm (wasmPath ++ "/vision_wasm_internal.wasm"))) w0
    = (Fulfilled response, w1) ->
  h _ (instantiateStreaming response (Some imports)) w1 = (Fulfilled source, w2) ->
  h _ (successCallback (instance source) (module source)) w2 = (Rejected error, w3) ->
  outcome (run h (CreateWasmConfig.streaming wasmPath imports) w0) = Rejected error /\
  forall (inst : Ref) (w4 : W) (evs : list Event),
    run h (CreateWasmConfig.buffered wasmPath imports) w3 = (Fulfilled inst, w4, evs) ->
    outcome (run h (CreateWasmConfig.instantiateWasm wasmPath imports) w0)
      = Fulfilled inst /\
    exists modl,
      callbacks (events (run h (CreateWasmConfig.instantiateWasm wasmPath imports) w0))
        = [(instance source, module source); (inst, modl)].
Proof.
  intros Hfetch Hstream Hcallback.
  assert (Hstreaming :
    run h (CreateWasmConfig.streaming wasmPath imports) w0
    = (Rejected error, w3,
       [EHost (CFetch (GET_wasm (wasmPath ++ "/vision_wasm_internal.wasm")))
          (AResponse response);
        EHost (CInstantiateStreaming response (Some imports)) (ASource source);
        EHost (CSuccessCallback (instance source) (module source)) (AError error)])).
  { unfold CreateWasmConfig.streaming, CreateWasmConfig.wasmUrl; cbn.
    rewrite Hfetch; cbn. rewrite Hstream; cbn. rewrite Hcallback; cbn. reflexivity. }
  split; [now rewrite Hstreaming|].
  intros inst w4 evs Hbuffered.
  rewrite config_instantiateWasm_run, Hstreaming, Hbuffered.
  apply config_buffered_fulfilled in Hbuffered as (response2 & bytes & source2 & -> & ->).
  split; [reflexivity|]. exists (module source2). reflexivity.
Qed.

Lemma config_throwing_callback_is_called_again_witness :
  outcome (run (Scripted.host Fixture.picky_caller)
             (CreateWasmConfig.instantiateWasm "/wasm" 5) 0) = Fulfilled 3 /\
  exists modl,
    callbacks (events (run (Scripted.host Fixture.picky_caller)
                         (CreateWasmConfig.instantiateWasm "/wasm" 5) 0))
      = [(1, 2); (3, modl)].
Proof.
  exact (proj2 (config_throwing_callback_is_called_again
                  (Scripted.host Fixture.picky_caller) "/wasm" 5 0 1 1 1
                  Scripted.wasm_response Scripted.streamed Fixture.rejected_by_caller
                  eq_refl eq_refl eq_refl)
           3 2 _ eq_refl).
Defined.

(** X6.  No rejection goes unlogged.  Whenever [instantiateWasm] (either
    version) or [loadWasm] is rejected, the last thing it did was a
    [console.error] carrying the very error the promise is rejected
    with. *)
Theorem rejections_are_logged {W} (h : Host W) (wasmPath : string) (imports : Ref)
  (w0 : W) (e : JsError) :
  (outcome (run h (CreateWasmConfig.instantiateWasm wasmPath imports) w0) = Rejected e ->
   exists earlier,
     events (run h (CreateWasmConfig.instantiateWasm wasmPath imports) w0)
       = (earlier ++ [ELog Err "[MediaPipeWasmAdapter] ✗ ArrayBuffer 回退方案也失败:"
                        (ErrorArg e)])%list) /\
  (outcome (run h (CreateWasmLoader.instantiateWasm wasmPath imports) w0) = Rejected e ->
   exists earlier,
     events (run h (CreateWasmLoader.instantiateWasm wasmPath imports) w0)
       = (earlier ++ [ELog Err "[MediaPipeWasmAdapter] ✗ WASM实例化失败:"
                        (ErrorArg e)])%list) /\
  (forall file : string,
   outcome (run h (WasmLoader.loadWasm wasmPath file) w0) = Rejected e ->
   exists earlier,
     events (run h (WasmLoader.loadWasm wasmPath file) w0)
       = (earlier ++ [ELog Err ("[WasmLoader] ✗ WASM文件加载失败: " ++ file)
                        (ErrorArg e)])%list).
Proof.
  split; [|split].
  - rewrite config_instantiateWasm_run.
    destruct (run h (CreateWasmConfig.streaming wasmPath imports) w0)
      as [[[inst|error] w1] evs1]; [discriminate|].
    destruct (run h (CreateWasmConfig.buffered wasmPath imports) w1)
      as [[[inst|fallbackError] w2] evs2]; [discriminate|].
    intros [= <-]. cbn [events snd].
    exists (config_intro :: evs1 ++ config_streaming_failed error :: evs2)%list.
    cbn. rewrite <- app_assoc. reflexivity.
  - rewrite loader_instantiateWasm_run.
    destruct (run h (CreateWasmLoader.streaming wasmPath imports) w0)
      as [[[inst|error] w1] evs1]; [discriminate|].
    intros [= <-]. now exists (loader_intro :: evs1).
  - intros file. rewrite loadWasm_run. cbv zeta.
    destruct (h Response (fetch (GET_wasm (wasmPath ++ "/" ++ file))) w0)
      as [[response|error] w1].
    + destruct (ok response).
      * destruct (h InstantiatedSource (instantiateStreaming response None) w1)
          as [[source|error] w2]; [discriminate|].
        intros [= <-]. cbn [events snd].
        exists ([load_started (wasmPath ++ "/" ++ file);
                 EHost (CFetch (GET_wasm (wasmPath ++ "/" ++ file))) (AResponse response)]
                ++ load_warned response
                ++ [EHost (CInstantiateStreaming response None) (AError error)])%list.
        rewrite <- !app_assoc. reflexivity.
      * intros [= <-]. now eexists [_; _].
    + intros [= <-]. now eexists [_; _].
Qed.

Lemma rejections_are_logged_witness :
  exists earlier,
    events (run (Scripted.host Scripted.missing)
              (CreateWasmLoader.instantiateWasm "/wasm" 5) 0)
      = (earlier ++ [ELog Err "[MediaPipeWasmAdapter] ✗ WASM实例化失败:"
                       (ErrorArg (Error "HTTP 404: Not Found"))])%list.
Proof.
  apply (proj1 (proj2 (rejections_are_logged (Scripted.host Scripted.missing)
                         "/wasm" 5 0 (Error "HTTP 404: Not Found")))).
  reflexivity.
Defined.

(** ** [WasmLoader]: calls and logs *)

Lemma host_calls_load_warned (response : Response) :
  host_calls (load_warned response) = [].
Proof.
  unfold load_warned.
  now destruct (mime_suspect (headers_get response "content-type")).
Qed.

(** X7.  [loadWasm] sends exactly one request, the GET of the file under
    the base path with the Accept header, and hands the response to the
    streaming compiler exactly when it has a success status: a rejected
    fetch or a failure status ends the call there.  It makes no other call
    to the host. *)
Theorem loadWasm_calls {W} (h : Host W) (basePath file : string) (w0 : W) :
  host_calls (events (run h (WasmLoader.loadWasm basePath file) w0))
  = CFetch (GET_wasm (basePath ++ "/" ++ file))
    :: match fst (h _ (fetch (GET_wasm (basePath ++ "/" ++ file))) w0) with
       | Fulfilled response =>
           if ok response then [CInstantiateStreaming response None] else []
       | Rejected _ => []
       end.
Proof.
  rewrite loadWasm_run. cbv zeta.
  destruct (h Response (fetch (GET_wasm (basePath ++ "/" ++ file))) w0)
    as [[response|error] w1]; cbn [fst]; [|reflexivity].
  destruct (ok response); [|reflexivity].
  destruct (h InstantiatedSource (instantiateStreaming response None) w1)
    as [[source|error] w2]; cbn [events snd];
    rewrite !host_calls_app, host_calls_load_warned; reflexivity.
Qed.

(** X8.  The check of [validateWasmFiles] only probes.  On every host and
    for every list of files, every call to the host is a request, every
    request is a HEAD without headers, and there are at most as many
    requests as files (two for [validateWasmFiles] itself). *)
Theorem validate_only_probes {W} (h : Host W) (basePath : string) :
  (forall (files : list string) (w0 : W),
     let evs := events (run h (WasmLoader.validateLoop basePath files) w0) in
     host_calls evs = map CFetch (requests evs) /\
     Forall (fun req => method req = "HEAD" /\ req_headers req = []) (requests evs) /\
     List.length (requests evs) <= List.length files) /\
  (forall w0 : W,
     let evs := events (run h (WasmLoader.validateWasmFiles basePath) w0) in
     host_calls evs = map CFetch (requests evs) /\
     Forall (fun req => method req = "HEAD" /\ req_headers req = []) (requests evs) /\
     List.length (requests evs) <= 2).
Proof.
  assert (Hloop : forall (files : list string) (w0 : W),
    host_calls (events (run h (WasmLoader.validateLoop basePath files) w0))
      = map CFetch (requests (events (run h (WasmLoader.validateLoop basePath files) w0))) /\
    Forall (fun req => method req = "HEAD" /\ req_headers req = [])
      (requests (events (run h (WasmLoader.validateLoop basePath files) w0))) /\
    List.length (requests (events (run h (WasmLoader.validateLoop basePath files) w0)))
      <= List.length files).
  { induction files as [|file rest IH]; intros w0.
    - cbn. repeat split; [constructor | lia].
    - cbn [WasmLoader.validateLoop]. rewrite run_bind, validateFile_run. cbv zeta.
      destruct (h Response (fetch (HEAD (basePath ++ "/" ++ file))) w0)
        as [[response|error] w1].
      + destruct (ok response).
        * specialize (IH w1).
          destruct (run h (WasmLoader.validateLoop basePath rest) w1)
            as [[verdict w2] evs]; cbn in IH |- *.
          destruct IH as (Hcalls & Hhead & Hlen).
          rewrite Hcalls. repeat split; [|lia].
          constructor; [now split | exact Hhead].
        * cbn. repeat split; [|lia]. repeat constructor.
      + cbn. repeat split; [|lia]. repeat constructor. }
  split; [exact Hloop|].
  intros w0. unfold WasmLoader.validateWasmFiles. cbn [bind console_log run].
  specialize (Hloop WasmLoader.testFiles w0).
  destruct (run h (WasmLoader.validateLoop basePath WasmLoader.testFiles) w0)
    as [[verdict w1] evs]. exact Hloop.
Qed.

Lemma validateLoop_errors {W} (h : Host W) (basePath : string)
  (files : list string) (w0 : W) :
  (outcome (run h (WasmLoader.validateLoop basePath files) w0) = Fulfilled true ->
   errors (events (run h (WasmLoader.validateLoop basePath files) w0)) = []) /\
  (outcome (run h (WasmLoader.validateLoop basePath files) w0) = Fulfilled false ->
   exists passed file rest detail,
     files = (passed ++ file :: rest)%list /\
     List.length (requests (events (run h (WasmLoader.validateLoop basePath files) w0)))
       = S (List.length passed) /\
     errors (events (run h (WasmLoader.validateLoop basePath files) w0))
       = ["[WasmLoader] ❌ " ++ file ++ ": " ++ detail]).
Proof.
  revert w0; induction files as [|file rest IH]; intros w0.
  - cbn. split; [reflexivity | discriminate].
  - cbn [WasmLoader.validateLoop]. rewrite run_bind, validateFile_run. cbv zeta.
    destruct (h Response (fetch (HEAD (basePath ++ "/" ++ file))) w0)
      as [[response|error] w1].
    + destruct (ok response).
      * specialize (IH w1).
        destruct (run h (WasmLoader.validateLoop basePath rest) w1)
          as [[verdict w2] evs]; cbn in IH |- *.
        destruct IH as [IHtrue IHfalse]. split; [exact IHtrue|].
        intros Hverdict.
        destruct (IHfalse Hverdict) as (passed & failing & left & detail & -> & Hlen & Herr).
        exists (file :: passed), failing, left, detail. cbn. now rewrite Hlen.
      * cbn. split; [discriminate|]. intros _.
        now exists [], file, rest, (JsString.toString (status response)).
    + cbn. split; [discriminate|]. intros _.
      now exists [], file, rest, "网络错误".
Qed.

(** X9.  A negative verdict is always explained.  On every host, a run of
    the check (of the loop over any list of files, and of
    [validateWasmFiles] over its own) that answers [true] has logged no
    error; a run that answers [false] has logged exactly one, and it names
    the file at which the check stopped. *)
Theorem validate_failure_names_file {W} (h : Host W) (basePath : string) (w0 : W) :
  (forall files : list string,
     (outcome (run h (WasmLoader.validateLoop basePath files) w0) = Fulfilled true ->
      errors (events (run h (WasmLoader.validateLoop basePath files) w0)) = []) /\
     (outcome (run h (WasmLoader.validateLoop basePath files) w0) = Fulfilled false ->
      exists passed file rest detail,
        files = (passed ++ file :: rest)%list /\
        List.length
          (requests (events (run h (WasmLoader.validateLoop basePath files) w0)))
          = S (List.length passed) /\
        errors (events (run h (WasmLoader.validateLoop basePath files) w0))
          = ["[WasmLoader] ❌ " ++ file ++ ": " ++ detail])) /\
  (outcome (run h (WasmLoader.validateWasmFiles basePath) w0) = Fulfilled true ->
   errors (events (run h (WasmLoader.validateWasmFiles basePath) w0)) = []) /\
  (outcome (run h (WasmLoader.validateWasmFiles basePath) w0) = Fulfilled false ->
   exists passed file rest detail,
     WasmLoader.testFiles = (passed ++ file :: rest)%list /\
     List.length (requests (events (run h (WasmLoader.validateWasmFiles basePath) w0)))
       = S (List.length passed) /\
     errors (events (run h (WasmLoader.validateWasmFiles basePath) w0))
       = ["[WasmLoader] ❌ " ++ file ++ ": " ++ detail]).
Proof.
  split; [intros files; apply validateLoop_errors|].
  pose proof (validateLoop_errors h basePath WasmLoader.testFiles w0) as Hloop.
  unfold WasmLoader.validateWasmFiles. cbn [bind console_log run].
  destruct (run h (WasmLoader.validateLoop basePath WasmLoader.testFiles) w0)
    as [[verdict w1] evs]. exact Hloop.
Qed.

Lemma validate_failure_names_file_witness :
  exists passed file rest detail,
    WasmLoader.testFiles = (passed ++ file :: rest)%list /\
    List.length (requests (events (run (Scripted.host Scripted.serving)
                                     (WasmLoader.validateWasmFiles "/wasm") 7)))
      = S (List.length passed) /\
    errors (events (run (Scripted.host Scripted.serving)
                      (WasmLoader.validateWasmFiles "/wasm") 7))
      = ["[WasmLoader] ❌ " ++ file ++ ": " ++ detail].
Proof.
  apply (proj2 (proj2 (validate_failure_names_file (Scripted.host Scripted.serving)
                         "/wasm" 7))).
  reflexivity.
Defined.

(** ** The content-type check *)

Lemma typed_is_not_suspect (contentType : option string) (p q : string) :
  contentType = Some (p ++ "application/wasm" ++ q) ->
  mime_suspect contentType = false.
Proof.
  intros Htyped. destruct (mime_suspect contentType) eqn:Hsuspect; [|reflexivity].
  apply mime_suspect_spec in Hsuspect as [Hnone|(s & Hsome & Hout)]; [congruence|].
  exfalso. apply Hout. exists p, q. congruence.
Qed.

(** X10.  No false alarm.  In [createWasmLoader]'s [instantiateWasm] and in
    [loadWasm], a response whose content type holds "application/wasm"
    anywhere (parameters before or after it do not matter) raises no
    warning at all, whatever else happens in the call. *)
Theorem typed_response_raises_no_warning {W} (h : Host W) (wasmPath : string)
  (imports : Ref) (w0 w1 : W) (response : Response) (p q : string) :
  headers_get response "content-type" = Some (p ++ "application/wasm" ++ q) ->
  (h _ (fetch (GET (wasmPath ++ "/vision_wasm_internal.wasm"))) w0
     = (Fulfilled response, w1) ->
   warnings (events (run h (CreateWasmLoader.instantiateWasm wasmPath imports) w0)) = []) /\
  (forall file : string,
   h _ (fetch (GET_wasm (wasmPath ++ "/" ++ file))) w0 = (Fulfilled response, w1) ->
   warnings (events (run h (WasmLoader.loadWasm wasmPath file) w0)) = []).
Proof.
  intros Htyped. apply typed_is_not_suspect in Htyped. split.
  - intros Hfetch.
    unfold CreateWasmLoader.instantiateWasm, CreateWasmLoader.streaming,
      CreateWasmLoader.wasmUrl, CreateWasmLoader.wasmFileName; cbn.
    rewrite Hfetch; cbn. destruct (ok response); cbn; [|reflexivity].
    rewrite Htyped; cbn. host_cases h; reflexivity.
  - intros file Hfetch. rewrite loadWasm_run. cbv zeta. rewrite Hfetch.
    destruct (ok response); [|reflexivity].
    destruct (h InstantiatedSource (instantiateStreaming response None) w1)
      as [[source|error] w2]; cbn [events snd];
      rewrite !warnings_app; unfold load_warned; rewrite Htyped; reflexivity.
Qed.

Lemma typed_response_raises_no_warning_witness :
  warnings (events (run (Scripted.host Scripted.serving)
                      (CreateWasmLoader.instantiateWasm "/wasm" 5) 0)) = [] /\
  warnings (events (run (Scripted.host Scripted.serving)
                      (WasmLoader.loadWasm "/wasm" "vision_wasm_internal.wasm") 0)) = [].
Proof.
  pose proof (typed_response_raises_no_warning (Scripted.host Scripted.serving)
                "/wasm" 5 0 1 Scripted.wasm_response "" "" eq_refl)
    as [Hadapter Hloader].
  split; [exact (Hadapter eq_refl) | exact (Hloader "vision_wasm_internal.wasm" eq_refl)].
Defined.

(** ** One binary, one URL *)

Lemma config_first_request {W} (h : Host W) (wasmPath : string) (imports : Ref) (w0 : W) :
  exists rest,
    requests (events (run h (CreateWasmConfig.instantiateWasm wasmPath imports) w0))
    = GET_wasm (wasmPath ++ "/vision_wasm_internal.wasm") :: rest.
Proof.
  rewrite config_instantiateWasm_run.
  destruct (config_streaming_calls h wasmPath imports w0) as [Hreq _].
  destruct (run h (CreateWasmConfig.streaming wasmPath imports) w0)
    as [[[inst|error] w1] evs1]; cbn [events snd] in Hreq.
  - cbn. rewrite Hreq. now exists [].
  - destruct (run h (CreateWasmConfig.buffered wasmPath imports) w1)
      as [[[inst|fallbackError] w2] evs2];
      cbn [events snd requests config_intro]; rewrite requests_app, Hreq;
      eexists; reflexivity.
Qed.

Lemma loader_only_request {W} (h : Host W) (wasmPath : string) (imports : Ref) (w0 : W) :
  requests (events (run h (CreateWasmLoader.instantiateWasm wasmPath imports) w0))
  = [GET (wasmPath ++ "/vision_wasm_internal.wasm")].
Proof.
  unfold CreateWasmLoader.instantiateWasm, CreateWasmLoader.streaming,
    CreateWasmLoader.wasmUrl, CreateWasmLoader.wasmFileName; cbn.
  destruct (h Response (fetch (GET (wasmPath ++ "/vision_wasm_internal.wasm"))) w0)
    as [[response|e] w1]; cbn; [|reflexivity].
  destruct (ok response); cbn; [|reflexivity].
  destruct (mime_suspect (headers_get response "content-type")); cbn;
    host_cases h; reflexivity.
Qed.

Lemma loadWasm_only_request {W} (h : Host W) (basePath file : string) (w0 : W) :
  requests (events (run h (WasmLoader.loadWasm basePath file) w0))
  = [GET_wasm (basePath ++ "/" ++ file)].
Proof.
  assert (Hwarned : forall response, requests (load_warned response) = []).
  { intros response. unfold load_warned.
    now destruct (mime_suspect (headers_get response "content-type")). }
  rewrite loadWasm_run. cbv zeta.
  destruct (h Response (fetch (GET_wasm (basePath ++ "/" ++ file))) w0)
    as [[response|error] w1]; [|reflexivity].
  destruct (ok response); [|reflexivity].
  destruct (h InstantiatedSource (instantiateStreaming response None) w1)
    as [[source|error] w2]; cbn [events snd];
    rewrite !requests_app, Hwarned; reflexivity.
Qed.

(** X11.  Objects built from the same constructor argument (none at all for
    the exported instances, which then work under "/wasm") address one and
    the same URL for the main binary: it is what [locateFile] of either
    hook object returns for "vision_wasm_internal.wasm" under any default
    prefix, what either [instantiateWasm] requests first, what [loadWasm]
    requests for that file, what [preloadWasmFiles] requests first and
    what [validateWasmFiles] probes first. *)
Theorem one_url_for_the_binary {W} (h : Host W) (path : option string)
  (defaultPrefix : string) (imports : Ref) (w : W) :
  let this := construct path in
  let binary := this ++ "/vision_wasm_internal.wasm" in
  (path = None -> binary = "/wasm/vision_wasm_internal.wasm") /\
  outcome (run h (Hooks.locateFile (createWasmConfig this)
                    "vision_wasm_internal.wasm" defaultPrefix) w) = Fulfilled binary /\
  outcome (run h (Hooks.locateFile (createWasmLoader this)
                    "vision_wasm_internal.wasm" defaultPrefix) w) = Fulfilled binary /\
  (exists rest,
     map url (requests (events (run h (Hooks.instantiateWasm (createWasmConfig this)
                                         imports) w))) = binary :: rest) /\
  map url (requests (events (run h (Hooks.instantiateWasm (createWasmLoader this)
                                      imports) w))) = [binary] /\
  map url (requests (events (run h (WasmLoader.loadWasm this "vision_wasm_internal.wasm")
                               w))) = [binary] /\
  (exists rest,
     map url (issued_requests (snd (spawn (tasks (WasmLoader.preloadWasmFiles this)))))
     = binary :: rest) /\
  (exists rest,
     map url (requests (events (run h (WasmLoader.validateWasmFiles this) w)))
     = binary :: rest).
Proof.
  intros this binary. subst binary.
  split; [intros ->; reflexivity|].
  split; [reflexivity|]. split; [reflexivity|].
  split.
  { destruct (config_first_request h this imports w) as [rest Hreq].
    cbn [createWasmConfig Hooks.instantiateWasm]. rewrite Hreq.
    eexists; reflexivity. }
  split.
  { cbn [createWasmLoader Hooks.instantiateWasm].
    now rewrite loader_only_request. }
  split; [now rewrite loadWasm_only_request|].
  split.
  { destruct (spawn_preload this WasmLoader.wasmFiles) as (_ & Hissued & _).
    cbn [WasmLoader.preloadWasmFiles tasks]. rewrite Hissued.
    eexists; reflexivity. }
  unfold WasmLoader.validateWasmFiles, WasmLoader.testFiles.
  cbn [bind console_log run WasmLoader.validateLoop].
  rewrite run_bind, validateFile_run. cbv zeta.
  destruct (h Response (fetch (HEAD (this ++ "/" ++ "vision_wasm_internal.wasm"))) w)
    as [[response|error] w1].
  - destruct (ok response).
    + destruct (run h _ w1) as [[verdict w2] evs]. eexists; reflexivity.
    + eexists; reflexivity.
  - eexists; reflexivity.
Qed.

Lemma one_url_for_the_binary_witness :
  construct None ++ "/vision_wasm_internal.wasm" = "/wasm/vision_wasm_internal.wasm".
Proof.
  apply (one_url_for_the_binary (Scripted.host Scripted.serving) None "/assets/" 5 0).
  reflexivity.
Defined.

(** X12.  The options of [getFilesetResolverOptions] are consistent: their
    [locateFile] is the one of [createWasmLoader], so that every name
    ending in ".wasm" is sent under the very [wasmLoaderPath] the options
    carry, whatever the default prefix, and every other name is left at
    the default prefix. *)
Theorem fileset_options_are_consistent {W} (h : Host W) (w : W)
  (this filename defaultPrefix : string) :
  let options := getFilesetResolverOptions this in
  ((exists stem, filename = stem ++ ".wasm") ->
   outcome (run h (FilesetResolverOptions.locateFile options filename defaultPrefix) w)
     = Fulfilled (FilesetResolverOptions.wasmLoaderPath options ++ "/" ++ filename)) /\
  (~ (exists stem, filename = stem ++ ".wasm") ->
   outcome (run h (FilesetResolverOptions.locateFile options filename defaultPrefix) w)
     = Fulfilled (defaultPrefix ++ filename)) /\
  run h (FilesetResolverOptions.locateFile options filename defaultPrefix) w
    = run h (Hooks.locateFile (createWasmLoader this) filename defaultPrefix) w.
Proof.
  cbv zeta. unfold getFilesetResolverOptions, createWasmLoader.
  cbn [FilesetResolverOptions.locateFile FilesetResolverOptions.wasmLoaderPath
       Hooks.locateFile].
  unfold CreateWasmLoader.locateFile.
  split; [|split; [|reflexivity]]; intros Hsuffix.
  - apply endsWith_spec in Hsuffix. now rewrite Hsuffix.
  - destruct (JsString.endsWith filename ".wasm") eqn:Hends; [|reflexivity].
    exfalso. apply Hsuffix, endsWith_spec, Hends.
Qed.

Lemma fileset_options_are_consistent_witness :
  outcome (run (Scripted.host Scripted.serving)
             (FilesetResolverOptions.locateFile (getFilesetResolverOptions mediaPipeWasmAdapter)
                "vision_wasm_nosimd_internal.wasm" "/assets/") 0)
  = Fulfilled "/wasm/vision_wasm_nosimd_internal.wasm".
Proof.
  apply (fileset_options_are_consistent (Scripted.host Scripted.serving) 0
           mediaPipeWasmAdapter "vision_wasm_nosimd_internal.wasm" "/assets/").
  exists "vision_wasm_nosimd_internal". reflexivity.
Defined.

(** ** The order of settlement *)

Lemma eval_bind {A B} (ans : Oracle) (p : Prog A) (f : A -> Prog B) :
  eval ans (bind p f)
  = match eval ans p with
    | Fulfilled a => eval ans (f a)
    | Rejected e => Rejected e
    end.
Proof. induction p as [a|e|lvl msg arg k IH|X op k IH]; cbn; auto. Qed.

Lemma eval_try_catch {A} (ans : Oracle) (p : Prog A) (handler : JsError -> Prog A) :
  eval ans (try_catch p handler)
  = match eval ans p with
    | Fulfilled a => Fulfilled a
    | Rejected e => eval ans (handler e)
    end.
Proof. induction p as [a|e|lvl msg arg k IH|X op k IH]; cbn; auto. Qed.

Lemma run_eval {W A} (h : Host W) (ans : Oracle) (p : Prog A) (w : W) :
  answers_as h ans -> outcome (run h p w) = eval ans p.
Proof.
  intros Hans. unfold outcome.
  revert w; induction p as [a|e|lvl msg arg k IH|X op k IH]; intros w; cbn.
  - reflexivity.
  - reflexivity.
  - specialize (IH w). now destruct (run h k w) as [[o w'] evs].
  - specialize (Hans X op w). destruct (h X op w) as [o w1]. cbn in Hans. subst o.
    specialize (IH (ans X op) w1).
    now destruct (run h (k (ans X op)) w1) as [[o' w'] evs].
Qed.

Lemma eval_sync {A} (ans : Oracle) (p : Prog A) : eval ans (fst (sync p)) = eval ans p.
Proof.
  induction p as [a|e|lvl msg arg k IH|X op k IH]; cbn; try reflexivity.
  now destruct (sync k) as [p' evs].
Qed.

Lemma eval_spawn {A} (ans : Oracle) (tasks : list (Prog A)) :
  map (eval ans) (fst (spawn tasks)) = map (eval ans) tasks.
Proof.
  induction tasks as [|t ts IH]; cbn [spawn map]; [reflexivity|].
  pose proof (eval_sync ans t) as Ht.
  destruct (sync t) as [t' evs]. destruct (spawn ts) as [ts' evs'].
  cbn [fst map] in *. now rewrite Ht, IH.
Qed.

Lemma eval_settle_nth {W A} (h : Host W) (ans : Oracle) (pool : list (Prog A)) :
  answers_as h ans ->
  forall (n : nat) (w : W),
  map (eval ans) (fst (fst (settle_nth h n pool w))) = map (eval ans) pool.
Proof.
  intros Hans. induction pool as [|p pool IH]; intros n w; [reflexivity|].
  assert (Hskip : forall m,
    map (eval ans) (p :: fst (fst (settle_nth h m pool w))) = map (eval ans) (p :: pool)).
  { intros m. cbn [map]. now rewrite IH. }
  destruct p as [a|e|lvl msg arg k|X op k]; cbn [settle_nth];
    try (specialize (Hskip n);
         destruct (settle_nth h n pool w) as [[pool' w'] evs]; exact Hskip).
  destruct n as [|n];
    [|specialize (Hskip n);
      destruct (settle_nth h n pool w) as [[pool' w'] evs]; exact Hskip].
  specialize (Hans X op w). destruct (h X op w) as [o w']. cbn in Hans. subst o.
  pose proof (eval_sync ans (k (ans X op))) as Hsync.
  destruct (sync (k (ans X op))) as [p' evs]. cbn [fst map eval] in *.
  now rewrite Hsync.
Qed.

Lemma eval_drive {W A} (h : Host W) (ans : Oracle) (sched : list nat) :
  answers_as h ans ->
  forall (pool : list (Prog A)) (w : W) r pool' w' evs,
  drive h sched pool w = Some (r, pool', w', evs) ->
  map (eval ans) pool' = map (eval ans) pool /\ all_settled pool' = Some r.
Proof.
  intros Hans. induction sched as [|c sched IH]; intros pool w r pool' w' evs;
    cbn [drive]; destruct (all_settled pool) as [r0|] eqn:Hall; try discriminate.
  - intros [= <- <- <- <-]. now split.
  - intros [= <- <- <- <-]. now split.
  - pose proof (eval_settle_nth h ans pool Hans (c mod count_suspended pool) w) as Hstep.
    destruct (settle_nth h (c mod count_suspended pool) pool w) as [[pool1 w1] evs1].
    cbn [fst] in Hstep.
    destruct (drive h sched pool1 w1) as [[[[r2 pool2] w2] evs2]|] eqn:Hdrive;
      [|discriminate].
    intros [= <- <- <- <-].
    destruct (IH pool1 w1 _ _ _ _ Hdrive) as [Heval Hsettled].
    split; [congruence | exact Hsettled].
Qed.

Lemma eval_preloadTask (ans : Oracle) (basePath file : string) :
  eval ans (WasmLoader.preloadTask basePath file)
  = Fulfilled (entry_of (eval ans (WasmLoader.loadWasm basePath file))).
Proof.
  unfold WasmLoader.preloadTask. rewrite eval_try_catch, eval_bind.
  now destruct (eval ans (WasmLoader.loadWasm basePath file)).
Qed.

Lemma map_Fulfilled_inj {A} (l l' : list A) :
  map (@Fulfilled A) l = map (@Fulfilled A) l' -> l = l'.
Proof.
  revert l'; induction l as [|a l IH]; intros [|a' l'] H; try discriminate.
  - reflexivity.
  - cbn in H. injection H as -> H. f_equal. now apply IH.
Qed.

(** X13.  On a host whose answers depend on the call alone, not on what
    was asked before, the order in which the calls of [preloadWasmFiles]
    settle does not matter: whatever the schedule, once [Promise.all] is
    fulfilled the entry of each file is the instance that [loadWasm] of
    that file alone yields, or [null] when that load is rejected. *)
Theorem preload_is_schedule_independent {W} (h : Host W) (ans : Oracle)
  (basePath : string) (sched : list nat) (w w' : W)
  (results : list (option Ref)) (pool : list (Prog (option Ref))) (evs : list Event) :
  answers_as h ans ->
  drive h sched (fst (spawn (tasks (WasmLoader.preloadWasmFiles basePath)))) w
    = Some (Fulfilled results, pool, w', evs) ->
  results
  = map (fun file => entry_of (outcome (run h (WasmLoader.loadWasm basePath file) w)))
      WasmLoader.wasmFiles.
Proof.
  intros Hans Hdrive.
  destruct (eval_drive h ans sched Hans _ _ _ _ _ _ Hdrive) as [Heval Hsettled].
  apply all_settled_fulfilled in Hsettled. subst pool.
  rewrite eval_spawn in Heval.
  cbn [WasmLoader.preloadWasmFiles tasks] in Heval.
  assert (Hret : map (eval ans) (map Ret results) = map (@Fulfilled _) results)
    by (rewrite map_map; reflexivity).
  rewrite Hret in Heval. apply map_Fulfilled_inj.
  rewrite Heval, !map_map. apply map_ext. intros file.
  now rewrite eval_preloadTask, (run_eval h ans _ w Hans).
Qed.

Lemma preload_is_schedule_independent_witness :
  [Some 1; None]
  = map (fun file =>
           entry_of (outcome (run Fixture.static_host (WasmLoader.loadWasm "/wasm" file) 0)))
      WasmLoader.wasmFiles.
Proof.
  exact (preload_is_schedule_independent Fixture.static_host Fixture.static_oracle
           "/wasm" [1; 0; 1; 0] 0 3 [Some 1; None] [Ret (Some 1); Ret None] _
           (fun X op w => eq_refl) eq_refl).
Defined.

(** X14.  [preloadWasmFiles] reports completion whatever happened: on every
    host and schedule, a call that settles is fulfilled and the last thing
    it did was to log "✓ WASM文件预加载完成", even when every file failed
    to load.  Its outer [catch] is never entered. *)
Theorem preload_always_reports_completion {W} (h : Host W) (basePath : string)
  (sched : list nat) (w0 w1 : W) (o : Settled unit) (evs : list Event) :
  run_gather h sched (WasmLoader.preloadWasmFiles basePath) w0 = Some (o, w1, evs) ->
  o = Fulfilled tt /\
  exists earlier,
    evs = (earlier ++ [ELog Log "[WasmLoader] ✓ WASM文件预加载完成" NoArg])%list.
Proof.
  pose proof (spawn_preload basePath WasmLoader.wasmFiles) as (Hpool & _ & _).
  unfold run_gather. cbn [WasmLoader.preloadWasmFiles before tasks after console_log run].
  pose proof (drive_waiting h sched _ _ w0 Hpool) as Hdrive.
  destruct (spawn (map (WasmLoader.preloadTask basePath) WasmLoader.wasmFiles))
    as [pool evs1]; cbn [fst] in Hdrive.
  destruct (drive h sched pool w0) as [[[[[results|e] pool'] w'] evs2]|];
    [|contradiction|discriminate].
  cbn. intros [= <- <- <-]. split; [reflexivity|].
  exists (ELog Log "[WasmLoader] 开始预加载WASM文件..." NoArg :: evs1 ++ evs2)%list.
  cbn. now rewrite <- app_assoc.
Qed.

Lemma preload_always_reports_completion_witness :
  match run_gather (Scripted.host Scripted.missing) [0; 0]
          (WasmLoader.preloadWasmFiles "/wasm") 0 with
  | Some (o, _, evs) =>
      o = Fulfilled tt /\
      exists earlier,
        evs = (earlier ++ [ELog Log "[WasmLoader] ✓ WASM文件预加载完成" NoArg])%list
  | None => False
  end.
Proof.
  exact (preload_always_reports_completion (Scripted.host Scripted.missing) "/wasm"
           [0; 0] 0 2 (Fulfilled tt) _ eq_refl).
Defined.
